(** * ol/source/ogcTileUtil: OGC API Tiles link selection, collections
      query parameter, tile matrix set parsing and the tile URL function.

    A shallow embedding of [src/ol/source/ogcTileUtil.js].  Strings are byte
    strings holding UTF-8 text; tile indices and limits are integers ([Z]);
    map-unit quantities (cell sizes, origins, extents) are kept abstract.
    Host built-ins the module calls are modelled in [JS]; the [URL] class
    and the collaborators it imports from other modules ([getProjection],
    [resolveUrl], [getIntersection], [TileGrid]) are interfaces ([UrlHost],
    [HostTypes], [Host]) that every statement is generic in. *)

From Stdlib Require Import ZArith String Ascii List Lia.
From Stdlib Require Import Numbers.DecimalString.
From stdpp Require Import base gmap strings list.

Open Scope string_scope.

(** ** Host built-ins *)

Module JS.

(** Exceptions a call can raise: [new Error(message)], and the host's
    [TypeError] and [URIError]. *)
Inductive exn : Type :=
| Error (message : string)
| TypeError
| URIError.

Inductive completion (A : Type) : Type :=
| Normal (a : A)
| Throw (e : exn).
Arguments Normal {A} a.
Arguments Throw {A} e.

Definition bind {A B} (c : completion A) (k : A -> completion B) : completion B :=
  match c with
  | Normal a => k a
  | Throw e => Throw e
  end.

(** A value read from an object that holds strings: an own string, or a
    member of [Object.prototype] reached through the prototype chain. *)
Inductive value : Type :=
| Str (s : string)
| Inherited (name : string).

(** Property names every plain object inherits from [Object.prototype]. *)
Definition objectPrototypeKeys : list string :=
  [ "constructor"; "hasOwnProperty"; "isPrototypeOf"; "propertyIsEnumerable";
    "toLocaleString"; "toString"; "valueOf"; "__proto__";
    "__defineGetter__"; "__defineSetter__"; "__lookupGetter__"; "__lookupSetter__" ].

Definition inherited (k : string) : bool :=
  existsb (String.eqb k) objectPrototypeKeys.

(** ToBoolean on a string or undefined: the empty string is falsy. *)
Definition truthyString (o : option string) : bool :=
  match o with
  | Some s => negb (s =? "")
  | None => false
  end.

Definition truthy (o : option value) : bool :=
  match o with
  | Some (Str s) => negb (s =? "")
  | Some (Inherited _) => true
  | None => false
  end.

(** [obj[k]] on an object literal whose own properties are strings. *)
Definition get (own : gmap string string) (k : string) : option value :=
  match own !! k with
  | Some s => Some (Str s)
  | None => if inherited k then Some (Inherited k) else None
  end.

(** [obj[k] = v] with a string [v]: the [__proto__] setter ignores
    primitives, every other key becomes an own property. *)
Definition set (own : gmap string string) (k v : string) : gmap string string :=
  if k =? "__proto__" then own else <[k := v]> own.

(** [arr[i]] for a number [i]: undefined outside [0 .. length-1]. *)
Definition index {A} (arr : list A) (i : Z) : option A :=
  if (i <? 0)%Z then None else arr !! Z.to_nat i.

(** ToString of an integral number. *)
Definition numberToString (z : Z) : string :=
  NilEmpty.string_of_int (Z.to_int z).

(** ToPropertyKey / ToString of a string that may be undefined. *)
Definition toKey (o : option string) : string :=
  match o with
  | Some s => s
  | None => "undefined"
  end.

(** [s.split(sep)] for a one-character separator. *)
Fixpoint split (sep : ascii) (s : string) : list string :=
  match s with
  | EmptyString => [EmptyString]
  | String c s' =>
      if Ascii.eqb c sep then EmptyString :: split sep s'
      else match split sep s' with
           | x :: xs => String c x :: xs
           | [] => [String c EmptyString]
           end
  end.

Definition startsWith (s p : string) : bool := String.prefix p s.

Definition join (sep : string) (l : list string) : string := String.concat sep l.

Definition includes (l : list string) (x : string) : bool :=
  existsb (String.eqb x) l.

(** *** Character classes *)

Definition code (c : ascii) : N := N_of_ascii c.

Definition between (lo hi : N) (c : ascii) : bool :=
  ((lo <=? code c) && (code c <=? hi))%N.

Definition isUpper := between 65 90.
Definition isLower := between 97 122.
Definition isDigit := between 48 57.
Definition isAlnum (c : ascii) : bool := isUpper c || isLower c || isDigit c.

(** [\w] *)
Definition isWord (c : ascii) : bool := isAlnum c || Ascii.eqb c "_".

(** Canonicalize of a case-insensitive, non-unicode regular expression:
    only ASCII letters fold. *)
Definition upcase (c : ascii) : ascii :=
  if isLower c then ascii_of_N (code c - 32) else c.

(** *** Percent-encoding *)

Definition hexDigit (n : N) : ascii :=
  if (n <? 10)%N then ascii_of_N (48 + n) else ascii_of_N (55 + n).

Definition percentByte (c : ascii) : string :=
  String "%" (String (hexDigit (code c / 16)) (String (hexDigit (code c mod 16)) "")).

(** uriUnreserved: alphanumerics and [- _ . ! ~ * ' ( )]. *)
Definition uriUnreserved (c : ascii) : bool :=
  isAlnum c || existsb (Ascii.eqb c) (list_ascii_of_string "-_.!~*'()").

(** [encodeURIComponent] on well-formed text: every UTF-8 byte outside
    the unreserved set is escaped. *)
Fixpoint encodeURIComponent (s : string) : string :=
  match s with
  | EmptyString => EmptyString
  | String c s' =>
      (if uriUnreserved c then String c "" else percentByte c) +:+ encodeURIComponent s'
  end.

(** The application/x-www-form-urlencoded byte serializer. *)
Definition formSafe (c : ascii) : bool :=
  isAlnum c || existsb (Ascii.eqb c) (list_ascii_of_string "*-._").

Fixpoint formEncode (s : string) : string :=
  match s with
  | EmptyString => EmptyString
  | String c s' =>
      (if formSafe c then String c ""
       else if Ascii.eqb c " " then "+"
       else percentByte c) +:+ formEncode s'
  end.

(** [URLSearchParams.prototype.toString]. *)
Definition searchParamsToString (params : list (string * string)) : string :=
  join "&" (map (fun p => formEncode (fst p) +:+ "=" +:+ formEncode (snd p)) params).

(** *** decodeURIComponent *)

Definition hexValue (c : ascii) : option N :=
  if isDigit c then Some (code c - 48)%N
  else if between 65 70 c then Some (code c - 55)%N
  else if between 97 102 c then Some (code c - 87)%N
  else None.

Definition hexOctet (h l : ascii) : option N :=
  match hexValue h, hexValue l with
  | Some a, Some b => Some (16 * a + b)%N
  | _, _ => None
  end.

(** Number of leading one bits of an octet that is at least 0x80. *)
Definition leadingOnes (b : N) : nat :=
  if (b <? 192)%N then 1
  else if (b <? 224)%N then 2
  else if (b <? 240)%N then 3
  else if (b <? 248)%N then 4
  else 5.

Definition inRange (lo hi b : N) : bool := ((lo <=? b) && (b <=? hi))%N.

Definition continuation : N -> bool := inRange 128 191.

(** Well-formed UTF-8 sequences of two to four octets. *)
Definition validUtf8 (octets : list N) : bool :=
  match octets with
  | [b0; b1] => inRange 194 223 b0 && continuation b1
  | [b0; b1; b2] =>
      ((N.eqb b0 224 && inRange 160 191 b1)
       || (inRange 225 236 b0 && continuation b1)
       || (N.eqb b0 237 && inRange 128 159 b1)
       || (inRange 238 239 b0 && continuation b1))
      && continuation b2
  | [b0; b1; b2; b3] =>
      ((N.eqb b0 240 && inRange 144 191 b1)
       || (inRange 241 243 b0 && continuation b1)
       || (N.eqb b0 244 && inRange 128 143 b1))
      && continuation b2 && continuation b3
  | _ => false
  end.

Definition bytesToString (octets : list N) : string :=
  string_of_list_ascii (map ascii_of_N octets).

(** The Decode operation with an empty preserved set.  [pending] holds
    the octets of the multi-byte sequence being read and [need] how many
    of its escapes are still to come. *)
Fixpoint decodeFrom (pending : list N) (need : nat) (s : string) : completion string :=
  match need, s with
  | O, EmptyString => Normal EmptyString
  | O, String c rest =>
      if Ascii.eqb c "%" then
        match rest with
        | String h (String l rest') =>
            match hexOctet h l with
            | None => Throw URIError
            | Some b =>
                if (b <? 128)%N then
                  bind (decodeFrom [] 0 rest') (fun r => Normal (String (ascii_of_N b) r))
                else
                  match leadingOnes b with
                  | 2 => decodeFrom [b] 1 rest'
                  | 3 => decodeFrom [b] 2 rest'
                  | 4 => decodeFrom [b] 3 rest'
                  | _ => Throw URIError
                  end
            end
        | _ => Throw URIError
        end
      else bind (decodeFrom [] 0 rest) (fun r => Normal (String c r))
  | S m, String c (String h (String l rest')) =>
      if Ascii.eqb c "%" then
        match hexOctet h l with
        | None => Throw URIError
        | Some b =>
            let octets := (pending ++ [b])%list in
            match m with
            | O =>
                if validUtf8 octets then
                  bind (decodeFrom [] 0 rest') (fun r => Normal (bytesToString octets +:+ r))
                else Throw URIError
            | S _ => decodeFrom octets m rest'
            end
        end
      else Throw URIError
  | S _, _ => Throw URIError
  end.

Definition decodeURIComponent (s : string) : completion string := decodeFrom [] 0 s.

(** *** Regular expressions used by the module *)

(** Does [s] begin with [alt], letters compared case-insensitively?
    Returns what follows the match. *)
Fixpoint matchPrefixCI (alt s : string) : option string :=
  match alt, s with
  | EmptyString, _ => Some s
  | String a alt', String c s' =>
      if Ascii.eqb (upcase a) (upcase c) then matchPrefixCI alt' s' else None
  | String _ _, EmptyString => None
  end.

Fixpoint firstAlternative (alts : list string) (s : string) : option string :=
  match alts with
  | [] => None
  | alt :: alts' =>
      match matchPrefixCI alt s with
      | Some rest => Some rest
      | None => firstAlternative alts' s
      end
  end.

(** [s.replace(/a1|a2|.../i, by)]: the leftmost match, alternatives
    tried in order, is replaced once. *)
Fixpoint replaceFirstCI (alts : list string) (by_ : string) (s : string) : string :=
  match firstAlternative alts s with
  | Some rest => by_ +:+ rest
  | None =>
      match s with
      | EmptyString => EmptyString
      | String c s' => String c (replaceFirstCI alts by_ s')
      end
  end.

(** [s.replace(/\{(\w+?)\}/g, (m, p) => f(p))]: [open] is [Some w] while
    [{w] has been read and [w] is a run of word characters. *)
Fixpoint replacePlaceholders (f : string -> string) (open : option string) (s : string) : string :=
  match s with
  | EmptyString =>
      match open with
      | Some w => "{" +:+ w
      | None => EmptyString
      end
  | String c s' =>
      match open with
      | Some w =>
          if isWord c then replacePlaceholders f (Some (w +:+ String c "")) s'
          else if Ascii.eqb c "}" && negb (w =? "") then f w +:+ replacePlaceholders f None s'
          else if Ascii.eqb c "{" then "{" +:+ w +:+ replacePlaceholders f (Some "") s'
          else "{" +:+ w +:+ String c (replacePlaceholders f None s')
      | None =>
          if Ascii.eqb c "{" then replacePlaceholders f (Some "") s'
          else String c (replacePlaceholders f None s')
      end
  end.

(** *** The URL class, as far as the module reads it *)

Record URL : Type := { pathname : string; searchParams : list (string * string) }.

End JS.

Import JS.

(** ** Data model *)

(** Console output of a call and its completion. *)
Record outcome (A : Type) : Type := { logged : list string; result : completion A }.
Arguments logged {A} o.
Arguments result {A} o.

Definition silent {A} (c : completion A) : outcome A := {| logged := []; result := c |}.

Record Link : Type := { rel : string; href : string; type : string }.

Definition dquote : string := String "034"%char EmptyString.

Definition collectionEndpointMessage : string :=
  "The " +:+ dquote +:+ "collections" +:+ dquote
  +:+ " query parameter cannot be added to collection endpoints".

Definition noItemLink : exn :=
  Error ("Could not find " +:+ dquote +:+ "item" +:+ dquote +:+ " link").

Definition knownMapMediaTypes_own : list string :=
  [ "image/png"; "image/jpeg"; "image/gif"; "image/webp" ].

Definition knownVectorMediaTypes_own : list string :=
  [ "application/vnd.mapbox-vector-tile"; "application/geo+json" ].

(** [knownMapMediaTypes[t]] as a condition: an own entry is [true], and a
    name found on [Object.prototype] reads a (truthy) inherited member. *)
Definition knownMapMediaTypes (t : string) : bool :=
  includes knownMapMediaTypes_own t || inherited t.

Definition knownVectorMediaTypes (t : string) : bool :=
  includes knownVectorMediaTypes_own t || inherited t.

(** [link.type === mediaType] where [mediaType] may be undefined. *)
Definition isMediaType (t : string) (mediaType : option string) : bool :=
  match mediaType with
  | Some m => t =? m
  | None => false
  end.

(** ** Link selection and the collections parameter *)

(** What the module takes from its host: [new URL(input, base)], [None]
    when the constructor throws, and the string conversion of the
    [Object.prototype] member of a given name (implementation-defined
    text). *)
Class UrlHost : Type := {
  newURL : string -> string -> option URL;
  protoText : string -> string
}.

Section Selection.

Context {urls : UrlHost}.

Definition appendCollectionsQueryParam
    (tileUrlTemplate : string) (collections : list string) : outcome string :=
  match collections with
  | [] => silent (Normal tileUrlTemplate)
  | _ :: _ =>
      match newURL tileUrlTemplate "file:/" with
      | None => silent (Throw TypeError)
      | Some url =>
          if includes (split "/" (pathname url)) "collections" then
            {| logged := [collectionEndpointMessage]; result := Normal tileUrlTemplate |}
          else
            let encodedCollections := join "," (map encodeURIComponent collections) in
            let params := (searchParams url ++ [("collections", encodedCollections)])%list in
            let baseUrl := toKey (index (split "?" tileUrlTemplate) 0) in
            silent (bind (decodeURIComponent (searchParamsToString params))
                      (fun queryParams => Normal (baseUrl +:+ "?" +:+ queryParams)))
      end
  end.

(** The same call when the template read from [hrefLookup] is a member of
    [Object.prototype] instead of a string: the URL is built from its
    string conversion, and it has no [split] method. *)
Definition appendCollectionsToInherited
    (name : string) (collections : list string) : outcome value :=
  match collections with
  | [] => silent (Normal (Inherited name))
  | _ :: _ =>
      match newURL (protoText name) "file:/" with
      | None => silent (Throw TypeError)
      | Some url =>
          if includes (split "/" (pathname url)) "collections" then
            {| logged := [collectionEndpointMessage]; result := Normal (Inherited name) |}
          else silent (Throw TypeError)
      end
  end.

(** The loop of [getMapTileUrlTemplate]: the exact match, if the scan
    stopped on one, and the fallback remembered so far. *)
Fixpoint scanMapLinks (mediaType : option string) (links : list Link)
    (fallbackUrlTemplate : option string) : option string * option string :=
  match links with
  | [] => (None, fallbackUrlTemplate)
  | link :: rest =>
      if rel link =? "item" then
        if isMediaType (type link) mediaType then (Some (href link), fallbackUrlTemplate)
        else if knownMapMediaTypes (type link) then
          scanMapLinks mediaType rest (Some (href link))
        else if negb (truthyString fallbackUrlTemplate) && startsWith (type link) "image/" then
          scanMapLinks mediaType rest (Some (href link))
        else scanMapLinks mediaType rest fallbackUrlTemplate
      else scanMapLinks mediaType rest fallbackUrlTemplate
  end.

Definition getMapTileUrlTemplate (links : list Link) (mediaType : option string)
    (collections : option (list string)) : outcome string :=
  let '(tileUrlTemplate, fallbackUrlTemplate) := scanMapLinks mediaType links None in
  let chosen :=
    if truthyString tileUrlTemplate then tileUrlTemplate
    else if truthyString fallbackUrlTemplate then fallbackUrlTemplate
    else None in
  match chosen with
  | None => silent (Throw noItemLink)
  | Some tileUrlTemplate =>
      match collections with
      | Some cs => appendCollectionsQueryParam tileUrlTemplate cs
      | None => silent (Normal tileUrlTemplate)
      end
  end.

(** The first loop of [getVectorTileUrlTemplate]; [hrefLookup] records
    every link visited, whatever its [rel]. *)
Fixpoint scanVectorLinks (mediaType : option string) (links : list Link)
    (fallbackUrlTemplate : option string) (hrefLookup : gmap string string)
    : option string * option string * gmap string string :=
  match links with
  | [] => (None, fallbackUrlTemplate, hrefLookup)
  | link :: rest =>
      let hrefLookup := set hrefLookup (type link) (href link) in
      if rel link =? "item" then
        if isMediaType (type link) mediaType then
          (Some (href link), fallbackUrlTemplate, hrefLookup)
        else if knownVectorMediaTypes (type link) then
          scanVectorLinks mediaType rest (Some (href link)) hrefLookup
        else scanVectorLinks mediaType rest fallbackUrlTemplate hrefLookup
      else scanVectorLinks mediaType rest fallbackUrlTemplate hrefLookup
  end.

(** The second loop: the first supported media type whose lookup is truthy. *)
Fixpoint firstSupported (hrefLookup : gmap string string)
    (supportedMediaTypes : list string) : option value :=
  match supportedMediaTypes with
  | [] => None
  | supportedMediaType :: rest =>
      if truthy (get hrefLookup supportedMediaType) then get hrefLookup supportedMediaType
      else firstSupported hrefLookup rest
  end.

Definition getVectorTileUrlTemplate (links : list Link) (mediaType : option string)
    (supportedMediaTypes : option (list string)) (collections : option (list string))
    : outcome value :=
  let '(exact, fallbackUrlTemplate, hrefLookup) := scanVectorLinks mediaType links None ∅ in
  let tileUrlTemplate : option value := Str <$> exact in
  let tileUrlTemplate :=
    match supportedMediaTypes with
    | Some supported =>
        if truthy tileUrlTemplate then tileUrlTemplate
        else match firstSupported hrefLookup supported with
             | Some v => Some v
             | None => tileUrlTemplate
             end
    | None => tileUrlTemplate
    end in
  let chosen :=
    if truthy tileUrlTemplate then tileUrlTemplate
    else if truthyString fallbackUrlTemplate then Str <$> fallbackUrlTemplate
    else None in
  match chosen with
  | None => silent (Throw noItemLink)
  | Some tileUrlTemplate =>
      match collections, tileUrlTemplate with
      | Some cs, Str t =>
          let o := appendCollectionsQueryParam t cs in
          {| logged := logged o; result := bind (result o) (fun r => Normal (Str r)) |}
      | Some cs, Inherited name => appendCollectionsToInherited name cs
      | None, _ => silent (Normal tileUrlTemplate)
      end
  end.

End Selection.

(** ** Tile matrix sets *)

Inductive CornerOfOrigin : Type := topLeft | bottomLeft.

(** [matrix.cornerOfOrigin === 'bottomLeft']; an absent field is not. *)
Definition isBottomLeft (c : option CornerOfOrigin) : bool :=
  match c with
  | Some bottomLeft => true
  | _ => false
  end.

Record TileMatrixSetLimit : Type := {
  tileMatrix : string;
  minTileRow : Z;
  maxTileRow : Z;
  minTileCol : Z;
  maxTileCol : Z
}.

(** The test of lines 392-397: the pair is outside the limit's box. *)
Definition outsideLimit (limit : TileMatrixSetLimit) (tileCol tileRow : Z) : bool :=
  (tileCol <? minTileCol limit)%Z || (tileCol >? maxTileCol limit)%Z
  || (tileRow <? minTileRow limit)%Z || (tileRow >? maxTileRow limit)%Z.

(** [Object.assign] of the three computed entries, their short aliases and
    the caller's context (values as their string conversions) onto a fresh
    object; later writes win. *)
Definition localContext (id : option string) (tileCol tileRow : Z)
    (context : option (list (string * string))) : gmap string string :=
  foldl (fun o kv => set o (fst kv) (snd kv)) ∅
    ([ ("tileMatrix", toKey id);
       ("tileCol", numberToString tileCol);
       ("tileRow", numberToString tileRow);
       ("z", toKey id);
       ("x", numberToString tileCol);
       ("y", numberToString tileRow) ]
     ++ default [] context)%list.

(** The types of the collaborators: numbers in map units, the payload of
    a WKT or reference-system CRS, ol/proj projections and
    ol/tilegrid/TileGrid. *)
Class HostTypes : Type := {
  num : Type;
  Json : Type;
  Projection : Type;
  TileGrid : Type
}.

Section Model.

Context {types : HostTypes}.

Definition Extent : Type := num * num * num * num.

Inductive Crs : Type :=
| CrsString (s : string)
| CrsUri (uri : string)
| CrsWkt (wkt : Json)
| CrsReferenceSystem (referenceSystem : Json).

Record TileMatrix : Type := {
  id : string;
  cellSize : num;
  pointOfOrigin : num * num;
  cornerOfOrigin : option CornerOfOrigin;
  matrixWidth : num;
  matrixHeight : num;
  tileWidth : num;
  tileHeight : num
}.

Record TileMatrixSet : Type := {
  crs : Crs;
  orderedAxes : option (list string);
  tileMatrices : list TileMatrix
}.

Record SourceInfo : Type := {
  url : string;
  mediaType : option string;
  supportedMediaTypes : option (list string);
  projection : option Projection;
  context : option (list (string * string));
  collections : option (list string)
}.

(** The options object handed to the [TileGrid] constructor. *)
Record TileGridOptions : Type := {
  origins : list (num * num);
  resolutions : list num;
  sizes : list (num * num);
  tileSizes : list (num * num);
  extent : option Extent
}.

Definition TileCoord : Type := Z * Z * Z.

Definition UrlFunction : Type :=
  option TileCoord -> num -> Projection -> completion (option string).

Record TileSetInfo : Type := {
  urlTemplate : string;
  resolvedProjection : Projection;
  grid : TileGrid;
  urlFunction : UrlFunction
}.

Record Level : Type := {
  origin : num * num;
  resolution : num;
  size : num * num;
  tileSize : num * num
}.

End Model.

(** The collaborators: the arithmetic of numbers, the registry lookup of
    ol/proj and a projection's axis orientation, ol/extent
    [getIntersection], ol/net [resolveUrl base url], [JSON.stringify] on a
    CRS, and the [TileGrid] constructor, which may reject its options. *)
Class Host {types : HostTypes} : Type := {
  add : num -> num -> num;
  sub : num -> num -> num;
  mul : num -> num -> num;
  ofZ : Z -> num;
  negInfinity : num;
  posInfinity : num;
  getProjection : string -> option Projection;
  getAxisOrientation : Projection -> string;
  intersectExtents : Extent -> Extent -> Extent;
  resolveUrl : string -> string -> string;
  JSON_stringify : Crs -> string;
  newTileGrid : TileGridOptions -> completion TileGrid
}.

Section Parsing.

Context {urls : UrlHost} {types : HostTypes} {host : Host}.

(** [new Error(`Unsupported CRS: ${JSON.stringify(tileMatrixSet.crs)}`)] *)
Definition unsupportedCrs (tileMatrixSet : TileMatrixSet) : exn :=
  Error ("Unsupported CRS: " +:+ JSON_stringify (crs tileMatrixSet)).

(** Lines 266-276. *)
Definition resolveProjection (sourceInfo : SourceInfo) (tileMatrixSet : TileMatrixSet)
    : completion Projection :=
  match projection sourceInfo with
  | Some p => Normal p
  | None =>
      let found :=
        match crs tileMatrixSet with
        | CrsString s => getProjection s
        | CrsUri uri => getProjection uri
        | _ => None
        end in
      match found with
      | Some p => Normal p
      | None => Throw (unsupportedCrs tileMatrixSet)
      end
  end.

(** [s.replace(/E|X|Lon/i, 'e').replace(/N|Y|Lat/i, 'n')] *)
Definition normalizeAxis (s : string) : string :=
  replaceFirstCI ["N"; "Y"; "Lat"] "n" (replaceFirstCI ["E"; "X"; "Lon"] "e" s).

(** Lines 277-283. *)
Definition axisOrientation (tileMatrixSet : TileMatrixSet) (p : Projection) : string :=
  match orderedAxes tileMatrixSet with
  | Some axes => join "" (map normalizeAxis (firstn 2 axes))
  | None => getAxisOrientation p
  end.

Definition isBackwards (tileMatrixSet : TileMatrixSet) (p : Projection) : bool :=
  negb (startsWith (axisOrientation tileMatrixSet p) "en").

(** Lines 291-295: later matrices with the same id overwrite earlier ones.
    A key without an own record reads undefined, or, for a name of
    [Object.prototype], an inherited member with none of a matrix's fields.
    The level loop throws [TypeError] on both (at [matrix.pointOfOrigin],
    or at the [origin[1]] or [origins[i][0]] that follows, a limit being
    present whenever the id came from the limits), so both are [None]
    here. *)
Definition matrixLookupOf (matrices : list TileMatrix) : gmap string TileMatrix :=
  foldl (fun o matrix => <[id matrix := matrix]> o) ∅ matrices.

(** Lines 300-313. *)
Definition limitLookupOf (tileMatrixSetLimits : option (list TileMatrixSetLimit))
    : gmap string TileMatrixSetLimit :=
  foldl (fun o limit => <[tileMatrix limit := limit]> o) ∅ (default [] tileMatrixSetLimits).

(** Lines 305-319. *)
Definition matrixIdsOf (tileMatrixSet : TileMatrixSet)
    (tileMatrixSetLimits : option (list TileMatrixSetLimit)) : list string :=
  match tileMatrixSetLimits with
  | Some limits => map tileMatrix limits
  | None => map id (tileMatrices tileMatrixSet)
  end.

(** Lines 342-357: the map-unit box of a limited level. *)
Definition limitExtent (matrix : TileMatrix) (o : num * num) (limit : TileMatrixSetLimit)
    : Extent :=
  let tileMapWidth := mul (cellSize matrix) (tileWidth matrix) in
  let minX := add (fst o) (mul (ofZ (minTileCol limit)) tileMapWidth) in
  let maxX := add (fst o) (mul (ofZ (maxTileCol limit + 1)) tileMapWidth) in
  let tileMapHeight := mul (cellSize matrix) (tileHeight matrix) in
  let upsideDown := isBottomLeft (cornerOfOrigin matrix) in
  let minY :=
    if upsideDown then add (snd o) (mul (ofZ (minTileRow limit)) tileMapHeight)
    else sub (snd o) (mul (ofZ (maxTileRow limit + 1)) tileMapHeight) in
  let maxY :=
    if upsideDown then add (snd o) (mul (ofZ (maxTileRow limit + 1)) tileMapHeight)
    else sub (snd o) (mul (ofZ (minTileRow limit)) tileMapHeight) in
  (minX, minY, maxX, maxY).

(** The loop of lines 328-361 over the remaining ids.  When limits were
    supplied every id has an own limit; when they were not, the running
    extent is never handed to the grid. *)
Fixpoint deriveLevels (backwards : bool) (matrixLookup : gmap string TileMatrix)
    (limitLookup : gmap string TileMatrixSetLimit) (ids : list string) (extent : Extent)
    : completion (list Level * Extent) :=
  match ids with
  | [] => Normal ([], extent)
  | id :: rest =>
      match matrixLookup !! id with
      | None => Throw TypeError
      | Some matrix =>
          let o := pointOfOrigin matrix in
          let o := if backwards then (snd o, fst o) else o in
          let level :=
            {| origin := o;
               resolution := cellSize matrix;
               size := (matrixWidth matrix, matrixHeight matrix);
               tileSize := (tileWidth matrix, tileHeight matrix) |} in
          let extent :=
            match limitLookup !! id with
            | Some limit => intersectExtents extent (limitExtent matrix o limit)
            | None => extent
            end in
          bind (deriveLevels backwards matrixLookup limitLookup rest extent)
            (fun r => Normal (level :: fst r, snd r))
      end
  end.

(** String conversion of [localContext[p]]. *)
Definition placeholderText (o : gmap string string) (p : string) : string :=
  match get o p with
  | Some (Str s) => s
  | Some (Inherited name) => protoText name
  | None => "undefined"
  end.

(** Lines 402-416: the URL of a tile that passed the limit test. *)
Definition tileUrl (base tileUrlTemplate : string) (context : option (list (string * string)))
    (id : option string) (tileCol tileRow : Z) : string :=
  resolveUrl base
    (replacePlaceholders (placeholderText (localContext id tileCol tileRow context))
       None tileUrlTemplate).

(** Lines 375-417, with the variables the closure captures made explicit.
    The closure exists only once the level loop has found a record for
    every id of [matrixIds]; the one key that can miss is then "undefined",
    for a level outside the list, and [matrix.cornerOfOrigin] throws. *)
Definition tileUrlFunction (matrixIds : list string)
    (matrixLookup : gmap string TileMatrix)
    (limitLookup : gmap string TileMatrixSetLimit)
    (tileMatrixSetLimits : option (list TileMatrixSetLimit))
    (context : option (list (string * string))) (base tileUrlTemplate : string)
    : UrlFunction :=
  fun tileCoord pixelRatio projection =>
    match tileCoord with
    | None => Normal None
    | Some (z, x, y) =>
        let matrixId := index matrixIds z in
        match matrixLookup !! toKey matrixId with
        | None => Throw TypeError
        | Some matrix =>
            let upsideDown := isBottomLeft (cornerOfOrigin matrix) in
            let tileCol := x in
            let tileRow := if upsideDown then (- y - 1)%Z else y in
            let built := Normal (Some (tileUrl base tileUrlTemplate context matrixId tileCol tileRow)) in
            match tileMatrixSetLimits with
            | Some _ =>
                match limitLookup !! id matrix with
                | None => Throw TypeError
                | Some limit =>
                    if outsideLimit limit tileCol tileRow then Normal None else built
                end
            | None => built
            end
        end
    end.

(** Lines 260-425. *)
Definition parseTileMatrixSet (sourceInfo : SourceInfo) (tileMatrixSet : TileMatrixSet)
    (tileUrlTemplate : string) (tileMatrixSetLimits : option (list TileMatrixSetLimit))
    : completion TileSetInfo :=
  bind (resolveProjection sourceInfo tileMatrixSet) (fun p =>
  let backwards := isBackwards tileMatrixSet p in
  let matrixLookup := matrixLookupOf (tileMatrices tileMatrixSet) in
  let limitLookup := limitLookupOf tileMatrixSetLimits in
  let matrixIds := matrixIdsOf tileMatrixSet tileMatrixSetLimits in
  bind (deriveLevels backwards matrixLookup limitLookup matrixIds
          (negInfinity, negInfinity, posInfinity, posInfinity)) (fun r =>
  let options :=
    {| origins := map origin (fst r);
       resolutions := map resolution (fst r);
       sizes := map size (fst r);
       tileSizes := map tileSize (fst r);
       extent := match tileMatrixSetLimits with
                 | Some _ => Some (snd r)
                 | None => None
                 end |} in
  bind (newTileGrid options) (fun tileGrid =>
  Normal {| urlTemplate := tileUrlTemplate;
            resolvedProjection := p;
            grid := tileGrid;
            urlFunction :=
              tileUrlFunction matrixIds matrixLookup limitLookup tileMatrixSetLimits
                (context sourceInfo) (url sourceInfo) tileUrlTemplate |}))).

End Parsing.

(** ** Vocabulary of the statements *)

Definition isItem (l : Link) : bool := rel l =? "item".

Definition exactItem (mediaType : option string) (l : Link) : bool :=
  isItem l && isMediaType (type l) mediaType.

Definition knownMapItem (l : Link) : bool := isItem l && knownMapMediaTypes (type l).

Definition imageItem (l : Link) : bool := isItem l && startsWith (type l) "image/".

Definition knownVectorItem (l : Link) : bool := isItem l && knownVectorMediaTypes (type l).

(** No link has an empty href. *)
Definition nonEmptyHrefs (links : list Link) : Prop :=
  Forall (fun l => href l <> "") links.

(** No "item" link has exactly the preferred media type. *)
Definition noExact (mediaType : option string) (links : list Link) : Prop :=
  Forall (fun l => exactItem mediaType l = false) links.

(** The last, respectively first, link of a list that satisfies a test. *)
Definition lastLink (p : Link -> bool) (links : list Link) : option Link :=
  last (List.filter p links).

Definition firstLink (p : Link -> bool) (links : list Link) : option Link :=
  List.find p links.

(** The type-to-href table after every link has been written to it. *)
Definition hrefLookupOf (links : list Link) : gmap string string :=
  foldl (fun o l => set o (type l) (href l)) ∅ links.

(** What the selectors do with the template they chose. *)
Definition withCollections {urls : UrlHost}
    (tileUrlTemplate : string) (collections : option (list string)) : outcome string :=
  match collections with
  | Some cs => appendCollectionsQueryParam tileUrlTemplate cs
  | None => silent (Normal tileUrlTemplate)
  end.

Definition withCollectionsValue {urls : UrlHost}
    (tileUrlTemplate : value) (collections : option (list string)) : outcome value :=
  match collections, tileUrlTemplate with
  | Some cs, Str t =>
      let o := appendCollectionsQueryParam t cs in
      {| logged := logged o; result := bind (result o) (fun r => Normal (Str r)) |}
  | Some cs, Inherited name => appendCollectionsToInherited name cs
  | None, _ => silent (Normal tileUrlTemplate)
  end.

(** The selection of the map variant as the specification words it: the
    first recognized "item" link, else the first "image/" one. *)
Definition claimedMapFallback (links : list Link) : option Link :=
  match firstLink knownMapItem links with
  | Some l => Some l
  | None => firstLink imageItem links
  end.

(** The precedence of the vector variant as the specification words it,
    for a list without an exact match: a recognized "item" link comes
    before the supported-media-types lookup. *)
Definition claimedVectorSelection (links : list Link) (supportedMediaTypes : list string)
    : option value :=
  match firstLink knownVectorItem links with
  | Some l => Some (Str (href l))
  | None => firstSupported (hrefLookupOf links) supportedMediaTypes
  end.

(** ** Sample data *)

Definition link (r t h : string) : Link := {| rel := r; href := h; type := t |}.

(** The path percent-encode set of the URL standard. *)
Definition pathEscaped (c : ascii) : bool :=
  (code c <? 33)%N || (126 <? code c)%N
  || existsb (Ascii.eqb c) ("034"%char :: list_ascii_of_string "#<>?`{}").

Fixpoint pathEncode (s : string) : string :=
  match s with
  | EmptyString => EmptyString
  | String c s' => (if pathEscaped c then percentByte c else String c "") +:+ pathEncode s'
  end.

Definition plainSegment (seg : string) : bool :=
  negb (includes [ "."; ".." ] seg)
  && forallb (fun c => negb (existsb (Ascii.eqb c) (list_ascii_of_string ":?#\%")))
       (list_ascii_of_string seg).

(** The host's URL parser restricted to the templates it is exercised on
    here: relative references made of plain path segments, resolved
    against a base whose path is the root.  Anything else is outside this
    stand-in. *)
Definition sampleURL (input base : string) : option URL :=
  if negb (startsWith input "/") && forallb plainSegment (split "/" input) then
    Some {| pathname := "/" +:+ pathEncode input; searchParams := [] |}
  else None.

Definition sampleProtoText (name : string) : string := "[object Object]".

Instance sampleUrls : UrlHost := {| newURL := sampleURL; protoText := sampleProtoText |}.

Definition pngThenJpeg : list Link :=
  [ link "item" "image/png" "A"; link "item" "image/jpeg" "B" ].

Definition geoJsonThenHtml : list Link :=
  [ link "item" "application/geo+json" "A"; link "alternate" "text/html" "B" ].

(** Numbers for the sample host: integers with the two infinities. *)
Inductive xnum : Type := MinusInfinity | Finite (z : Z) | PlusInfinity.

(** Arithmetic on finite operands; a non-finite operand is passed on (the
    parser only ever combines finite numbers). *)
Definition xlift (f : Z -> Z -> Z) (a b : xnum) : xnum :=
  match a, b with
  | Finite x, Finite y => Finite (f x y)
  | Finite _, other => other
  | other, _ => other
  end.

Definition xle (a b : xnum) : bool :=
  match a, b with
  | MinusInfinity, _ => true
  | _, PlusInfinity => true
  | Finite x, Finite y => (x <=? y)%Z
  | _, _ => false
  end.

Definition xmax (a b : xnum) : xnum := if xle a b then b else a.
Definition xmin (a b : xnum) : xnum := if xle a b then a else b.

(** A grid that records what it was built from. *)
Record sampleGrid : Type := {
  gridOrigins : list (xnum * xnum);
  gridResolutions : list xnum;
  gridSizes : list (xnum * xnum);
  gridTileSizes : list (xnum * xnum);
  gridExtent : option (xnum * xnum * xnum * xnum)
}.

(** Projections are known by their code and CRS payloads are kept as JSON
    text. *)
Instance sampleTypes : HostTypes :=
  {| num := xnum; Json := string; Projection := string; TileGrid := sampleGrid |}.

(** ol/extent [getIntersection]: the overlap of two boxes, or the empty
    extent when they do not meet. *)
Definition sampleIntersect (e1 e2 : Extent) : Extent :=
  let '(a0, a1, a2, a3) := e1 in
  let '(b0, b1, b2, b3) := e2 in
  if xle a0 b2 && xle b0 a2 && xle a1 b3 && xle b1 a3 then
    (xmax a0 b0, xmax a1 b1, xmin a2 b2, xmin a3 b3)
  else (PlusInfinity, PlusInfinity, MinusInfinity, MinusInfinity).

(** A registry that knows two codes, by name. *)
Definition sampleGetProjection (code : string) : option string :=
  if includes [ "EPSG:3857"; "EPSG:4326" ] code then Some code else None.

Definition sampleAxisOrientation (p : string) : string :=
  if p =? "EPSG:4326" then "neu" else "enu".

(** JSON text of a CRS. *)
Definition sampleStringify (c : Crs) : string :=
  match c with
  | CrsString s => dquote +:+ s +:+ dquote
  | CrsUri uri => "{" +:+ dquote +:+ "uri" +:+ dquote +:+ ":" +:+ dquote +:+ uri +:+ dquote +:+ "}"
  | CrsWkt wkt => "{" +:+ dquote +:+ "wkt" +:+ dquote +:+ ":" +:+ wkt +:+ "}"
  | CrsReferenceSystem r =>
      "{" +:+ dquote +:+ "referenceSystem" +:+ dquote +:+ ":" +:+ r +:+ "}"
  end.

(** Resolution of a relative template against a base that ends in "/". *)
Definition sampleResolveUrl (base url : string) : string := base +:+ url.

(** A grid constructor that accepts every options object and keeps it. *)
Definition sampleNewTileGrid (options : TileGridOptions) : completion TileGrid :=
  Normal {| gridOrigins := origins options;
            gridResolutions := resolutions options;
            gridSizes := sizes options;
            gridTileSizes := tileSizes options;
            gridExtent := extent options |}.

Instance sampleHost : Host :=
  {| add := xlift Z.add; sub := xlift Z.sub; mul := xlift Z.mul; ofZ := Finite;
     negInfinity := MinusInfinity; posInfinity := PlusInfinity;
     getProjection := sampleGetProjection;
     getAxisOrientation := sampleAxisOrientation;
     intersectExtents := sampleIntersect;
     resolveUrl := sampleResolveUrl;
     JSON_stringify := sampleStringify;
     newTileGrid := sampleNewTileGrid |}.

Definition sampleMatrix (k : string) (cell : Z) (corner : option CornerOfOrigin)
    : TileMatrix :=
  {| id := k; cellSize := Finite cell;
     pointOfOrigin := (Finite 90, Finite (-180));
     cornerOfOrigin := corner;
     matrixWidth := Finite 8; matrixHeight := Finite 4;
     tileWidth := Finite 256; tileHeight := Finite 256 |}.

Definition sampleMatrices : list TileMatrix :=
  [ sampleMatrix "0" 4 None; sampleMatrix "1" 2 (Some topLeft);
    sampleMatrix "2" 1 (Some bottomLeft) ].

Definition sampleTileMatrixSet : TileMatrixSet :=
  {| crs := CrsUri "EPSG:4326";
     orderedAxes := Some ["Lat"; "Lon"];
     tileMatrices := sampleMatrices |}.

Definition sampleWktTileMatrixSet : TileMatrixSet :=
  {| crs := @CrsWkt sampleTypes "{}"; orderedAxes := None; tileMatrices := sampleMatrices |}.

Definition sampleSourceInfo : SourceInfo :=
  {| url := "https://example.com/tiles/";
     mediaType := None; supportedMediaTypes := None;
     projection := None; context := None; collections := None |}.

Definition sampleLimit (k : string) : TileMatrixSetLimit :=
  {| tileMatrix := k; minTileRow := 0; maxTileRow := 2; minTileCol := 1; maxTileCol := 3 |}.

Definition sampleTemplate : string := "{tileMatrix}/{tileRow}/{tileCol}.png".

(** ** The tileset document and its resolution *)

Definition tilingSchemeRel : string :=
  "http://www.opengis.net/def/rel/ogc/1.0/tiling-scheme".

Definition unexpectedDataType : exn :=
  Error ("Expected tileset data type to be " +:+ dquote +:+ "map" +:+ dquote
         +:+ " or " +:+ dquote +:+ "vector" +:+ dquote).

Definition noTilingScheme : exn :=
  Error ("Expected " +:+ tilingSchemeRel +:+ " link or tileMatrixSet").

Section Documents.

Context {types : HostTypes}.

Record TileSet : Type := {
  dataType : string;
  tileMatrixSetDefinition : option string;
  tileMatrixSet : option TileMatrixSet;
  tileMatrixSetLimits : option (list TileMatrixSetLimit);
  links : list Link
}.

(** The [TileSetInfo] as [parseTileSetMetadata] hands it on: its template
    is whatever the selector returned, a string or a member of
    [Object.prototype]. *)
Record ResolvedTileSet : Type := {
  selectedTemplate : value;
  sourceProjection : Projection;
  tileGrid : TileGrid;
  tileUrlFunctionOf : UrlFunction
}.

(** What [parseTileSetMetadata] returns: the info itself, or a promise,
    given by its settlement. *)
Inductive MetadataResult : Type :=
| Immediate (info : ResolvedTileSet)
| Promised (settlement : completion ResolvedTileSet).

End Documents.

(** ol/net [getJSON], at the type each caller reads the document at;
    [Throw] is a rejected promise. *)
Class NetHost {types : HostTypes} : Type := {
  getTileSetJSON : string -> completion TileSet;
  getTileMatrixSetJSON : string -> completion TileMatrixSet
}.

Section Orchestration.

Context {urls : UrlHost} {types : HostTypes} {host : Host} {net : NetHost}.

(** [parseTileMatrixSet] on the template the selector returned.  A member
    of [Object.prototype] has no [replace] method: nothing reads the
    template before line 412, so the parse is the same and the URL function
    throws [TypeError] where it would substitute. *)
Definition parseSelected (sourceInfo : SourceInfo) (tileMatrixSet : TileMatrixSet)
    (tileUrlTemplate : value) (tileMatrixSetLimits : option (list TileMatrixSetLimit))
    : completion ResolvedTileSet :=
  match tileUrlTemplate with
  | Str t =>
      bind (parseTileMatrixSet sourceInfo tileMatrixSet t tileMatrixSetLimits) (fun info =>
      Normal {| selectedTemplate := Str t;
                sourceProjection := resolvedProjection info;
                tileGrid := grid info;
                tileUrlFunctionOf := urlFunction info |})
  | Inherited name =>
      bind (parseTileMatrixSet sourceInfo tileMatrixSet EmptyString tileMatrixSetLimits)
        (fun info =>
      Normal {| selectedTemplate := Inherited name;
                sourceProjection := resolvedProjection info;
                tileGrid := grid info;
                tileUrlFunctionOf := fun tileCoord pixelRatio proj =>
                  match urlFunction info tileCoord pixelRatio proj with
                  | Normal (Some _) => Throw TypeError
                  | other => other
                  end |})
  end.

(** Lines 437-452. *)
Definition selectTemplate (sourceInfo : SourceInfo) (tileSet : TileSet) : outcome value :=
  if dataType tileSet =? "map" then
    let o := getMapTileUrlTemplate (links tileSet) (mediaType sourceInfo)
               (collections sourceInfo) in
    {| logged := logged o; result := bind (result o) (fun t => Normal (Str t)) |}
  else if dataType tileSet =? "vector" then
    getVectorTileUrlTemplate (links tileSet) (mediaType sourceInfo)
      (supportedMediaTypes sourceInfo) (collections sourceInfo)
  else silent (Throw unexpectedDataType).

(** Lines 432-483. *)
Definition parseTileSetMetadata (sourceInfo : SourceInfo) (tileSet : TileSet)
    : outcome MetadataResult :=
  let selected := selectTemplate sourceInfo tileSet in
  {| logged := logged selected;
     result :=
       bind (result selected) (fun tileUrlTemplate =>
       match tileMatrixSet tileSet with
       | Some inline =>
           bind (parseSelected sourceInfo inline tileUrlTemplate (tileMatrixSetLimits tileSet))
             (fun info => Normal (Immediate info))
       | None =>
           match List.find (fun l => rel l =? tilingSchemeRel) (links tileSet) with
           | None => Throw noTilingScheme
           | Some tileMatrixSetLink =>
               let tileMatrixSetDefinition := href tileMatrixSetLink in
               let url := resolveUrl (url sourceInfo) tileMatrixSetDefinition in
               Normal (Promised
                         (bind (getTileMatrixSetJSON url) (fun fetched =>
                          parseSelected sourceInfo fetched tileUrlTemplate
                            (tileMatrixSetLimits tileSet))))
           end
       end) |}.

(** Lines 489-493: the promise, given by what is logged on the way and by
    its settlement; [then] turns a throw of the callback into a rejection
    and adopts a promise the callback returns. *)
Definition getTileSetInfo (sourceInfo : SourceInfo) : outcome ResolvedTileSet :=
  match getTileSetJSON (url sourceInfo) with
  | Throw e => silent (Throw e)
  | Normal tileSet =>
      let o := parseTileSetMetadata sourceInfo tileSet in
      {| logged := logged o;
         result :=
           bind (result o) (fun r =>
           match r with
           | Immediate info => Normal info
           | Promised settlement => settlement
           end) |}
  end.

End Orchestration.

(** ** Further vocabulary and sample data *)

(** Every character of a string passes a test. *)
Fixpoint allChars (p : ascii -> bool) (s : string) : bool :=
  match s with
  | EmptyString => true
  | String c s' => p c && allChars p s'
  end.

Definition isAscii (c : ascii) : bool := (code c <? 128)%N.

(** An ASCII character other than the space. *)
Definition isQuerySafe (c : ascii) : bool := isAscii c && negb (Ascii.eqb c " ").

Definition isNot (x c : ascii) : bool := negb (Ascii.eqb c x).

(** The template up to its first question mark. *)
Definition beforeQuery (tileUrlTemplate : string) : string :=
  hd EmptyString (split "?" tileUrlTemplate).

Definition isTilingScheme (l : Link) : bool := rel l =? tilingSchemeRel.

Definition hasType (t : string) (l : Link) : bool := type l =? t.

(** The origin of a level as the parser orients it. *)
Definition orientedOrigin {types : HostTypes} (backwards : bool) (matrix : TileMatrix)
    : num * num :=
  if backwards then (snd (pointOfOrigin matrix), fst (pointOfOrigin matrix))
  else pointOfOrigin matrix.

(** The level the parser derives from a matrix. *)
Definition levelOf {types : HostTypes} (backwards : bool) (matrix : TileMatrix) : Level :=
  {| origin := orientedOrigin backwards matrix;
     resolution := cellSize matrix;
     size := (matrixWidth matrix, matrixHeight matrix);
     tileSize := (tileWidth matrix, tileHeight matrix) |}.

(** The map-unit box of a limit on a matrix, from the oriented origin. *)
Definition levelBox {types : HostTypes} {host : Host} (backwards : bool)
    (matrix : TileMatrix) (limit : TileMatrixSetLimit) : Extent :=
  limitExtent matrix (orientedOrigin backwards matrix) limit.

(** The last value a list of entries gives to a key. *)
Definition lastBinding (k : string) (entries : list (string * string)) : option string :=
  snd <$> last (List.filter (fun kv => fst kv =? k) entries).

Definition computedKeys : list string :=
  [ "tileMatrix"; "tileCol"; "tileRow"; "z"; "x"; "y" ].

Definition sampleTileSet : TileSet :=
  {| dataType := "map";
     tileMatrixSetDefinition := None;
     tileMatrixSet := None;
     tileMatrixSetLimits := Some [sampleLimit "2"];
     links := [ link "item" "image/png" sampleTemplate;
                link tilingSchemeRel "application/json" "../tms/WorldCRS84Quad" ] |}.

Definition sampleMercatorTileMatrixSet : TileMatrixSet :=
  {| crs := @CrsString sampleTypes "EPSG:3857"; orderedAxes := None;
     tileMatrices := sampleMatrices |}.

Definition sampleInlineTileSet (kind : string) (links : list Link)
    (limits : option (list TileMatrixSetLimit)) : TileSet :=
  {| dataType := kind;
     tileMatrixSetDefinition := None;
     tileMatrixSet := Some sampleTileMatrixSet;
     tileMatrixSetLimits := limits;
     links := links |}.

(** A "map" tileset with links only. *)
Definition sampleBareTileSet (links : list Link) : TileSet :=
  {| dataType := "map";
     tileMatrixSetDefinition := None;
     tileMatrixSet := None;
     tileMatrixSetLimits := None;
     links := links |}.

(** A network that answers every tileset request with one document and
    has no tile matrix set documents. *)
Definition netServing (tileSet : TileSet) : NetHost :=
  {| getTileSetJSON := fun _ => Normal tileSet;
     getTileMatrixSetJSON := fun _ => Throw (Error "Not Found") |}.

(** A network that answers every request, with one tileset and with one
    tile matrix set. *)
Definition netAnswering (tileSet : TileSet) : NetHost :=
  {| getTileSetJSON := fun _ => Normal tileSet;
     getTileMatrixSetJSON := fun _ => Normal sampleMercatorTileMatrixSet |}.

(** A network that serves one tileset and one tile matrix set and rejects
    every other address. *)
Instance sampleNet : NetHost :=
  {| getTileSetJSON := fun address =>
       if address =? "https://example.com/tiles/" then Normal sampleTileSet
       else Throw (Error "Not Found");
     getTileMatrixSetJSON := fun address =>
       if address =? "https://example.com/tiles/../tms/WorldCRS84Quad"
       then Normal sampleTileMatrixSet
       else Throw (Error "Not Found") |}.

(** ** The host models on sample inputs *)

Example split_keeps_empty_segments : split "/" "/a//b/" = [""; "a"; ""; "b"; ""].
Proof. reflexivity. Qed.

Example encodeURIComponent_escapes_reserved :
  encodeURIComponent "a,b c/d" = "a%2Cb%20c%2Fd".
Proof. reflexivity. Qed.

Example searchParamsToString_escapes_again :
  searchParamsToString [("f", "mvt"); ("collections", "a%2Cb,c d")]
  = "f=mvt&collections=a%252Cb%2Cc+d".
Proof. reflexivity. Qed.

Example decodeURIComponent_rejects_malformed :
  decodeURIComponent "100%" = Throw URIError
  /\ decodeURIComponent "%C3" = Throw URIError
  /\ decodeURIComponent "%ED%A0%80" = Throw URIError
  /\ decodeURIComponent "%e2%82%ac" = Normal (bytesToString [226; 130; 172]%N).
Proof. repeat split; reflexivity. Qed.

Example replacePlaceholders_needs_a_name :
  map (replacePlaceholders (fun p => "<" +:+ p +:+ ">") None)
    [ "{z}/{x}/{y}.png"; "{}"; "{{z}"; "{a b}{c_1}"; "{open" ]
  = [ "<z>/<x>/<y>.png"; "{}"; "{<z>"; "{a b}<c_1>"; "{open" ].
Proof. reflexivity. Qed.

Example get_reaches_the_prototype :
  get (set (set ∅ "text/html" "B") "__proto__" "C") "__proto__" = Some (Inherited "__proto__")
  /\ get (set ∅ "text/html" "B") "text/html" = Some (Str "B")
  /\ get (set ∅ "text/html" "B") "toString" = Some (Inherited "toString")
  /\ get (set ∅ "text/html" "B") "image/png" = None.
Proof. repeat split; vm_compute; reflexivity. Qed.

Example normalizeAxis_collapses_names :
  map normalizeAxis ["Lat"; "Lon"; "E"; "y"; "X"] = ["n"; "e"; "e"; "n"; "e"].
Proof. reflexivity. Qed.

(** ** Properties of link selection *)

Section SelectionFacts.

Context {urls : UrlHost}.

Lemma truthyString_Some (s : string) : s <> "" -> truthyString (Some s) = true.
Proof.
  intros Hs. unfold truthyString. destruct (String.eqb_spec s ""); [contradiction | reflexivity].
Qed.

Lemma lastLink_cons p l links :
  lastLink p (l :: links) =
  match lastLink p links with
  | Some l' => Some l'
  | None => if p l then Some l else None
  end.
Proof.
  unfold lastLink. simpl. destruct (p l).
  - rewrite last_cons. reflexivity.
  - destruct (last (List.filter p links)); reflexivity.
Qed.

(** Without an exact match the scan ends with the last recognized "item"
    link as fallback, else with the fallback it started from, else with
    the first "image/" one. *)
Lemma scanMapLinks_noExact mediaType links :
  noExact mediaType links -> nonEmptyHrefs links ->
  forall fb, (fb = None \/ truthyString fb = true) ->
  scanMapLinks mediaType links fb =
  (None,
   match lastLink knownMapItem links with
   | Some l => Some (href l)
   | None =>
       match fb with
       | Some _ => fb
       | None => href <$> firstLink imageItem links
       end
   end).
Proof.
  intros Hex Hne. induction links as [|l links IH]; intros fb Hfb.
  - simpl. destruct fb; reflexivity.
  - inversion Hex as [|? ? Hl Hex']; subst. inversion Hne as [|? ? Hh Hne']; subst.
    rewrite lastLink_cons. simpl.
    unfold exactItem, knownMapItem, imageItem, isItem in *.
    destruct (rel l =? "item") eqn:Hrel; simpl in *.
    + rewrite Hl. destruct (knownMapMediaTypes (type l)) eqn:Hk.
      * rewrite (IH Hex' Hne' (Some (href l))) by (right; apply truthyString_Some; exact Hh).
        destruct (lastLink _ links); reflexivity.
      * destruct (startsWith (type l) "image/") eqn:Hs.
        -- destruct Hfb as [-> | Hfb].
           ++ simpl. rewrite (IH Hex' Hne' (Some (href l)))
                by (right; apply truthyString_Some; exact Hh).
              destruct (lastLink _ links); reflexivity.
           ++ rewrite Hfb. simpl. rewrite (IH Hex' Hne' fb) by (right; exact Hfb).
              destruct (lastLink _ links); [reflexivity|].
              destruct fb; [reflexivity | discriminate].
        -- rewrite andb_false_r. rewrite (IH Hex' Hne' fb Hfb).
           destruct (lastLink _ links); reflexivity.
    + rewrite (IH Hex' Hne' fb Hfb). destruct (lastLink _ links); reflexivity.
Qed.

Lemma lastLink_In p links l : lastLink p links = Some l -> In l links.
Proof.
  unfold lastLink. intros H. apply last_Some in H as [pre H].
  assert (Hin : In l (List.filter p links)) by (rewrite H; apply in_app_iff; right; left; reflexivity).
  apply filter_In in Hin. tauto.
Qed.

Lemma firstLink_In p links l : firstLink p links = Some l -> In l links.
Proof. intros H. apply find_some in H. tauto. Qed.

Lemma nonEmptyHrefs_In links l : nonEmptyHrefs links -> In l links -> href l <> "".
Proof. intros H Hin. exact (proj1 (List.Forall_forall _ _) H l Hin). Qed.

Lemma scanVectorLinks_noExact mediaType links :
  noExact mediaType links ->
  forall fb tbl,
  scanVectorLinks mediaType links fb tbl =
  (None,
   match lastLink knownVectorItem links with
   | Some l => Some (href l)
   | None => fb
   end,
   foldl (fun o l => set o (type l) (href l)) tbl links).
Proof.
  intros Hex. induction links as [|l links IH]; intros fb tbl.
  - reflexivity.
  - inversion Hex as [|? ? Hl Hex']; subst.
    rewrite lastLink_cons. simpl.
    unfold exactItem, knownVectorItem, isItem in *.
    destruct (rel l =? "item") eqn:Hrel; simpl in *.
    + rewrite Hl. destruct (knownVectorMediaTypes (type l)); rewrite (IH Hex');
        destruct (lastLink _ links); reflexivity.
    + rewrite (IH Hex'). destruct (lastLink _ links); reflexivity.
Qed.

Lemma scanVectorLinks_exact mediaType pre l post :
  noExact mediaType pre -> exactItem mediaType l = true ->
  forall fb tbl,
  exists fb' tbl',
    scanVectorLinks mediaType (pre ++ l :: post) fb tbl = (Some (href l), fb', tbl').
Proof.
  intros Hex Hl. induction pre as [|l0 pre IH]; intros fb tbl.
  - simpl. unfold exactItem, isItem in Hl. apply andb_prop in Hl as [Hrel Hty].
    rewrite Hrel, Hty. eauto.
  - inversion Hex as [|? ? Hl0 Hex']; subst. simpl.
    unfold exactItem, isItem in Hl0.
    destruct (rel l0 =? "item"); simpl in Hl0.
    + rewrite Hl0. destruct (knownVectorMediaTypes (type l0)); apply (IH Hex').
    + apply (IH Hex').
Qed.

Lemma firstSupported_found tbl pre s post v :
  Forall (fun s' => truthy (get tbl s') = false) pre ->
  get tbl s = Some v -> truthy (Some v) = true ->
  firstSupported tbl (pre ++ s :: post) = Some v.
Proof.
  intros Hpre Hs Hv. induction Hpre as [|s' pre Hs' _ IH]; simpl.
  - rewrite Hs, Hv. reflexivity.
  - rewrite Hs'. exact IH.
Qed.

Lemma firstSupported_none tbl sup :
  Forall (fun s => truthy (get tbl s) = false) sup -> firstSupported tbl sup = None.
Proof.
  intros H. induction H as [|s sup Hs _ IH]; simpl; [reflexivity|].
  rewrite Hs. exact IH.
Qed.

(** C2 (as amended).  When no "item" link has exactly the preferred type
    and no href is empty, [getMapTileUrlTemplate] selects the href of the
    LAST "item" link whose type the recognized-raster table accepts (every
    such link overwrites the fallback, whatever it held); if there is none,
    the href of the first "item" link whose type starts with "image/" (a
    prefix match never replaces a fallback already set); if there is none
    either, it throws the "no item link" error.  The selected href then
    goes through the collections step. *)
Theorem getMapTileUrlTemplate_fallback links mediaType collections :
  noExact mediaType links -> nonEmptyHrefs links ->
  getMapTileUrlTemplate links mediaType collections =
  match lastLink knownMapItem links with
  | Some l => withCollections (href l) collections
  | None =>
      match firstLink imageItem links with
      | Some l => withCollections (href l) collections
      | None => silent (Throw noItemLink)
      end
  end.
Proof.
  intros Hex Hne. unfold getMapTileUrlTemplate.
  rewrite (scanMapLinks_noExact mediaType links Hex Hne None) by (left; reflexivity).
  simpl truthyString at 1. cbv iota.
  destruct (lastLink knownMapItem links) as [l|] eqn:Hlast.
  - rewrite truthyString_Some
      by (eapply nonEmptyHrefs_In; [exact Hne | eapply lastLink_In; exact Hlast]).
    reflexivity.
  - destruct (firstLink imageItem links) as [l|] eqn:Hfirst; simpl fmap.
    + rewrite truthyString_Some
        by (eapply nonEmptyHrefs_In; [exact Hne | eapply firstLink_In; exact Hfirst]).
      reflexivity.
    + reflexivity.
Qed.

(** C1 (as amended).  With no empty href, [getVectorTileUrlTemplate]
    resolves in this order: (1) the first "item" link whose type is exactly
    the preferred one, which ends the scan; otherwise (2) when a supported
    list is given, the lookup of its first entry that reads truthy in the
    type-to-href table written over all links; otherwise (3) the last
    "item" link whose type the recognized-vector table accepts; otherwise
    (4) the "no item link" error.  The supported-types lookup therefore
    comes BEFORE the recognized-type fallback. *)
Theorem getVectorTileUrlTemplate_precedence links mediaType supported collections :
  nonEmptyHrefs links ->
  (forall pre l post,
      links = (pre ++ l :: post)%list -> noExact mediaType pre -> exactItem mediaType l = true ->
      getVectorTileUrlTemplate links mediaType supported collections
      = withCollectionsValue (Str (href l)) collections)
  /\ (noExact mediaType links ->
      forall pre s post v,
      supported = Some (pre ++ s :: post)%list ->
      Forall (fun s' => truthy (get (hrefLookupOf links) s') = false) pre ->
      get (hrefLookupOf links) s = Some v -> truthy (Some v) = true ->
      getVectorTileUrlTemplate links mediaType supported collections
      = withCollectionsValue v collections)
  /\ (noExact mediaType links ->
      (supported = None \/
       exists sup, supported = Some sup
                   /\ Forall (fun s => truthy (get (hrefLookupOf links) s) = false) sup) ->
      getVectorTileUrlTemplate links mediaType supported collections
      = match lastLink knownVectorItem links with
        | Some l => withCollectionsValue (Str (href l)) collections
        | None => silent (Throw noItemLink)
        end).
Proof.
  intros Hne. repeat split.
  - intros pre l post -> Hpre Hl. unfold getVectorTileUrlTemplate.
    destruct (scanVectorLinks_exact mediaType pre l post Hpre Hl None ∅) as (fb' & tbl' & ->).
    assert (Ht : truthy (Str <$> Some (href l)) = true).
    { simpl. apply (truthyString_Some (href l)).
      eapply nonEmptyHrefs_In; [exact Hne | apply in_app_iff; right; left; reflexivity]. }
    rewrite Ht. destruct supported; rewrite ?Ht; reflexivity.
  - intros Hex pre s post v -> Hpre Hs Hv. unfold getVectorTileUrlTemplate.
    rewrite (scanVectorLinks_noExact mediaType links Hex None ∅).
    fold (hrefLookupOf links). simpl fmap. simpl truthy at 1. cbv iota.
    rewrite (firstSupported_found _ pre s post v Hpre Hs Hv), Hv. reflexivity.
  - intros Hex Hsup. unfold getVectorTileUrlTemplate.
    rewrite (scanVectorLinks_noExact mediaType links Hex None ∅).
    fold (hrefLookupOf links). simpl fmap.
    assert (Hsel :
      match supported with
      | Some sup =>
          if truthy None then None
          else match firstSupported (hrefLookupOf links) sup with
               | Some v => Some v
               | None => None
               end
      | None => None
      end = @None value).
    { destruct Hsup as [-> | (sup & -> & Hall)]; [reflexivity|].
      simpl. rewrite (firstSupported_none _ sup Hall). reflexivity. }
    rewrite Hsel. simpl truthy. cbv iota.
    destruct (lastLink knownVectorItem links) as [l|] eqn:Hlast.
    + rewrite truthyString_Some
        by (eapply nonEmptyHrefs_In; [exact Hne | eapply lastLink_In; exact Hlast]).
      reflexivity.
    + reflexivity.
Qed.

Lemma includes_In l x : includes l x = true <-> In x l.
Proof.
  unfold includes. rewrite existsb_exists. split.
  - intros (y & Hy & Heq). apply String.eqb_eq in Heq. subst. exact Hy.
  - intros Hin. exists x. split; [exact Hin | apply String.eqb_refl].
Qed.

(** C9.  [appendCollectionsQueryParam t cs] returns [t] itself, silently,
    when [cs] is empty; and when [cs] is not empty and the path of [t]'s
    URL has a "collections" segment it logs the diagnostic and returns [t]
    itself. *)
Theorem appendCollectionsQueryParam_unchanged (t : string) (cs : list string) :
  (cs = [] -> appendCollectionsQueryParam t cs = silent (Normal t))
  /\ (forall u,
        cs <> [] -> newURL t "file:/" = Some u ->
        In "collections" (split "/" (pathname u)) ->
        appendCollectionsQueryParam t cs
        = {| logged := [collectionEndpointMessage]; result := Normal t |}).
Proof.
  split.
  - intros ->. reflexivity.
  - intros u Hcs Hu Hin. unfold appendCollectionsQueryParam.
    destruct cs as [|c cs']; [contradiction|].
    rewrite Hu. apply includes_In in Hin. rewrite Hin. reflexivity.
Qed.

(** C5.  On a host whose URL for "tiles/{z}/{x}/{y}.png" has no
    "collections" path segment and no query, appending ["a,b"; "c"] gives
    exactly "tiles/{z}/{x}/{y}.png?collections=a%2Cb,c".  The identifiers
    are encoded one by one and joined with a bare comma; the serialized
    query escapes that text once more and is decoded once as a whole. *)
Theorem appendCollectionsQueryParam_example (u : URL) :
  newURL "tiles/{z}/{x}/{y}.png" "file:/" = Some u ->
  includes (split "/" (pathname u)) "collections" = false ->
  searchParams u = [] ->
  appendCollectionsQueryParam "tiles/{z}/{x}/{y}.png" ["a,b"; "c"]
  = silent (Normal "tiles/{z}/{x}/{y}.png?collections=a%2Cb,c")
  /\ join "," (map encodeURIComponent ["a,b"; "c"]) = "a%2Cb,c"
  /\ searchParamsToString [("collections", "a%2Cb,c")] = "collections=a%252Cb%2Cc"
  /\ decodeURIComponent "collections=a%252Cb%2Cc" = Normal "collections=a%2Cb,c".
Proof.
  intros Hu Hpath Hq. repeat split; try (vm_compute; reflexivity).
  unfold appendCollectionsQueryParam. rewrite Hu, Hpath, Hq.
  vm_compute. reflexivity.
Qed.

End SelectionFacts.

(** ** Properties of the parser and of the URL function *)

Section LookupFacts.

Context {A : Type} (key : A -> string).

(** A table written entry by entry holds, for each key, the last entry
    written under it. *)
Lemma lookup_foldl_insert (l : list A) (acc : gmap string A) (k : string) :
  foldl (fun o x => <[key x := x]> o) acc l !! k =
  match last (List.filter (fun x => key x =? k) l) with
  | Some x => Some x
  | None => acc !! k
  end.
Proof.
  revert acc. induction l as [|x l IH]; intros acc; [reflexivity|].
  simpl. rewrite IH. destruct (String.eqb_spec (key x) k) as [Heq | Hne].
  - rewrite last_cons. destruct (last (List.filter _ l)); [reflexivity|].
    subst k. apply lookup_insert_eq.
  - destruct (last (List.filter _ l)); [reflexivity|].
    apply lookup_insert_ne. exact Hne.
Qed.

Lemma lookup_foldl_insert_Some (l : list A) (k : string) (x : A) :
  foldl (fun o x => <[key x := x]> o) (∅ : gmap string A) l !! k = Some x -> In x l /\ key x = k.
Proof.
  rewrite lookup_foldl_insert. destruct (last (List.filter _ l)) as [y|] eqn:Hlast.
  - intros [= ->]. apply last_Some in Hlast as [pre Hpre].
    assert (Hin : In x (List.filter (fun x => key x =? k) l))
      by (rewrite Hpre; apply in_app_iff; right; left; reflexivity).
    apply filter_In in Hin as [Hin Hk]. apply String.eqb_eq in Hk. tauto.
  - rewrite lookup_empty. discriminate.
Qed.

Lemma lookup_foldl_insert_None (l : list A) (k : string) :
  (forall x, In x l -> key x <> k) ->
  foldl (fun o x => <[key x := x]> o) (∅ : gmap string A) l !! k = None.
Proof.
  intros Hall. destruct (foldl _ (∅ : gmap string A) l !! k) as [x|] eqn:Hx; [|reflexivity].
  apply lookup_foldl_insert_Some in Hx as [Hin Hk]. destruct (Hall x Hin Hk).
Qed.

Lemma lookup_foldl_insert_is_Some (l : list A) (x : A) :
  In x l -> exists y, foldl (fun o x => <[key x := x]> o) (∅ : gmap string A) l !! key x = Some y.
Proof.
  intros Hin. rewrite lookup_foldl_insert.
  destruct (last (List.filter _ l)) as [y|] eqn:Hlast; [eauto|].
  apply last_None in Hlast.
  assert (Hx : In x (List.filter (fun y => key y =? key x) l))
    by (apply filter_In; split; [exact Hin | apply String.eqb_refl]).
  rewrite Hlast in Hx. destruct Hx.
Qed.

Lemma lookup_foldl_insert_NoDup (l : list A) (i : nat) (x : A) :
  NoDup (map key l) -> l !! i = Some x ->
  foldl (fun o x => <[key x := x]> o) (∅ : gmap string A) l !! key x = Some x.
Proof.
  intros Hnd Hi. destruct (lookup_foldl_insert_is_Some l x) as [y Hy].
  { apply list_elem_of_In. eapply list_elem_of_lookup_2. exact Hi. }
  rewrite Hy. f_equal. apply lookup_foldl_insert_Some in Hy as [Hin Hk].
  apply list_elem_of_In, list_elem_of_lookup in Hin as [j Hj].
  assert (Hij : j = i).
  { eapply (NoDup_lookup (map key l)); [exact Hnd | |].
    - rewrite list_lookup_fmap, Hj. simpl. rewrite Hk. reflexivity.
    - rewrite list_lookup_fmap, Hi. reflexivity. }
  subst j. congruence.
Qed.

End LookupFacts.

(** A list related pointwise to the images of found records is the list
    of those images. *)
Lemma Forall2_found_images {K A B : Type} (f : K -> option A) (g : A -> B)
    (ks : list K) (os : list B) :
  Forall2 (fun k o => exists a, f k = Some a /\ o = g a) ks os ->
  mapM (fun k => g <$> f k) ks = Some os.
Proof.
  induction 1 as [|k o ks os (a & Ha & ->) _ IH]; [reflexivity|].
  simpl. rewrite Ha. simpl. rewrite IH. reflexivity.
Qed.

Section ParsingFacts.

Context {urls : UrlHost} {types : HostTypes} {host : Host}.

Lemma deriveLevels_throw b ml ll ids ext e :
  deriveLevels b ml ll ids ext = Throw e -> e = TypeError.
Proof.
  revert ext. induction ids as [|k ids IH]; intros ext; simpl; [discriminate|].
  destruct (ml !! k) as [matrix|]; [|congruence].
  match goal with |- context [deriveLevels b ml ll ids ?x] => destruct (deriveLevels b ml ll ids x) eqn:Hd end;
    simpl; [discriminate|].
  intros [= <-]. eapply IH. exact Hd.
Qed.

Lemma deriveLevels_hits b ml ll ids ext r :
  deriveLevels b ml ll ids ext = Normal r ->
  forall k, In k ids -> exists matrix, ml !! k = Some matrix.
Proof.
  revert ext r. induction ids as [|k0 ids IH]; intros ext r; simpl; [intros _ k []|].
  destruct (ml !! k0) as [matrix|] eqn:Hk0; [|discriminate].
  match goal with |- context [deriveLevels b ml ll ids ?x] => destruct (deriveLevels b ml ll ids x) eqn:Hd end;
    simpl; [|discriminate].
  intros _ k [<- | Hin]; [eauto|]. eapply IH; eauto.
Qed.

Lemma deriveLevels_missing b ml ll ids ext k :
  In k ids -> ml !! k = None -> deriveLevels b ml ll ids ext = Throw TypeError.
Proof.
  intros Hin Hk. destruct (deriveLevels b ml ll ids ext) as [r|e] eqn:Hd.
  - destruct (deriveLevels_hits _ _ _ _ _ _ Hd k Hin) as [matrix Hm]. congruence.
  - f_equal. eapply deriveLevels_throw. exact Hd.
Qed.

(** With a reversed axis order every level's origin is its matrix's
    [pointOfOrigin] with the components exchanged. *)
Lemma deriveLevels_origins_swapped ml ll ids ext r :
  deriveLevels true ml ll ids ext = Normal r ->
  Forall2 (fun k o => exists matrix,
             ml !! k = Some matrix
             /\ o = (snd (pointOfOrigin matrix), fst (pointOfOrigin matrix)))
    ids (map origin (fst r)).
Proof.
  revert ext r. induction ids as [|k ids IH]; intros ext r; simpl.
  - intros [= <-]. constructor.
  - destruct (ml !! k) as [matrix|] eqn:Hk; [|discriminate].
    match goal with |- context [deriveLevels true ml ll ids ?x] =>
      destruct (deriveLevels true ml ll ids x) as [r'|] eqn:Hd end; simpl; [|discriminate].
    intros [= <-]. simpl. constructor; [eauto | eapply IH; exact Hd].
Qed.

(** A normal completion of the parser exposes each stage. *)
Lemma parseTileMatrixSet_Normal sourceInfo tms template limits info :
  parseTileMatrixSet sourceInfo tms template limits = Normal info ->
  exists p r,
    resolveProjection sourceInfo tms = Normal p
    /\ deriveLevels (isBackwards tms p) (matrixLookupOf (tileMatrices tms))
         (limitLookupOf limits) (matrixIdsOf tms limits)
         (negInfinity, negInfinity, posInfinity, posInfinity) = Normal r
    /\ newTileGrid
         {| origins := map origin (fst r);
            resolutions := map resolution (fst r);
            sizes := map size (fst r);
            tileSizes := map tileSize (fst r);
            extent := match limits with Some _ => Some (snd r) | None => None end |}
       = Normal (grid info)
    /\ resolvedProjection info = p
    /\ urlTemplate info = template
    /\ urlFunction info
       = tileUrlFunction (matrixIdsOf tms limits) (matrixLookupOf (tileMatrices tms))
           (limitLookupOf limits) limits (context sourceInfo) (url sourceInfo) template.
Proof.
  unfold parseTileMatrixSet.
  destruct (resolveProjection sourceInfo tms) as [p|] eqn:Hp; simpl; [|discriminate].
  match goal with |- context [deriveLevels ?b ?ml ?ll ?ids ?x] =>
    destruct (deriveLevels b ml ll ids x) as [r|] eqn:Hd end; simpl; [|discriminate].
  match goal with |- context [newTileGrid ?o] =>
    destruct (newTileGrid o) as [g|] eqn:Hg end; simpl; [|discriminate].
  intros [= <-]. exists p, r. simpl. auto 10.
Qed.

Lemma parseTileMatrixSet_Throw sourceInfo tms template limits e :
  parseTileMatrixSet sourceInfo tms template limits = Throw e ->
  resolveProjection sourceInfo tms = Throw e \/ e = TypeError
  \/ exists options, newTileGrid options = Throw e.
Proof.
  unfold parseTileMatrixSet.
  destruct (resolveProjection sourceInfo tms) as [p|] eqn:Hp; simpl; [|intros [= <-]; auto].
  match goal with |- context [deriveLevels ?b ?ml ?ll ?ids ?x] =>
    destruct (deriveLevels b ml ll ids x) as [r|] eqn:Hd end; simpl.
  - match goal with |- context [newTileGrid ?o] =>
      destruct (newTileGrid o) as [g|] eqn:Hg end; simpl; [discriminate|].
    intros [= <-]. eauto.
  - intros [= <-]. right. left. eapply deriveLevels_throw. exact Hd.
Qed.

Lemma outsideLimit_false limit col row :
  outsideLimit limit col row = false <->
  (minTileCol limit <= col <= maxTileCol limit)%Z
  /\ (minTileRow limit <= row <= maxTileRow limit)%Z.
Proof.
  unfold outsideLimit. rewrite !orb_false_iff, !Z.ltb_ge, !Z.gtb_ltb, !Z.ltb_ge. lia.
Qed.

Lemma foldl_set_other (l : list (string * string)) (acc : gmap string string) (k : string) :
  ~ In k (map fst l) ->
  foldl (fun o kv => set o (fst kv) (snd kv)) acc l !! k = acc !! k.
Proof.
  revert acc. induction l as [|[k0 v0] l IH]; intros acc Hk; [reflexivity|].
  simpl in *. rewrite IH by tauto. unfold set.
  destruct (k0 =? "__proto__"); [reflexivity|].
  apply lookup_insert_ne. tauto.
Qed.

(** The computed entries of the substitution context, for names the
    caller's context does not define. *)
Lemma localContext_computed (matrixId : option string) (col row : Z)
    (ctx : option (list (string * string))) (k : string) :
  ~ In k (map fst (default [] ctx)) ->
  (In k ["tileMatrix"; "z"] ->
     placeholderText (localContext matrixId col row ctx) k = toKey matrixId)
  /\ (In k ["tileCol"; "x"] ->
     placeholderText (localContext matrixId col row ctx) k = numberToString col)
  /\ (In k ["tileRow"; "y"] ->
     placeholderText (localContext matrixId col row ctx) k = numberToString row).
Proof.
  intros Hk. unfold placeholderText, get, localContext.
  rewrite foldl_app, foldl_set_other by exact Hk.
  repeat split; simpl; intros H;
    repeat (destruct H as [<- | H]; [vm_compute; reflexivity|]); destruct H.
Qed.

(** C3 (as amended).  When a limit names a tile matrix that the matrix set
    does not contain, the parser does not return: once the projection is
    resolved it throws [TypeError] on reading the missing matrix record
    (and a projection failure is reported first).  No URL function is
    built. *)
Theorem parseTileMatrixSet_unknown_limit_id sourceInfo tms template limits limit :
  In limit limits ->
  (forall matrix, In matrix (tileMatrices tms) -> id matrix <> tileMatrix limit) ->
  parseTileMatrixSet sourceInfo tms template (Some limits)
  = match resolveProjection sourceInfo tms with
    | Normal _ => Throw TypeError
    | Throw e => Throw e
    end.
Proof.
  intros Hin Hmissing. unfold parseTileMatrixSet.
  destruct (resolveProjection sourceInfo tms) as [p|e]; simpl; [|reflexivity].
  rewrite (deriveLevels_missing _ _ _ _ _ (tileMatrix limit)); [reflexivity | |].
  - apply in_map. exact Hin.
  - apply lookup_foldl_insert_None. exact Hmissing.
Qed.

(** C4.  When the parser returns with limits, then at every level index
    [i] of the limits list the matrix record and the limit registered for
    that level's matrix id exist (the limit is the level's own when ids are
    not repeated), and for every column and row: if the column and the
    origin-relative row lie in the limit's inclusive box, the URL function
    returns the template with its placeholders substituted from the
    level's id, the column and the row (and the caller's context), resolved
    against the base url; otherwise it returns undefined.  A placeholder
    the caller's context does not define reads the id for "tileMatrix" and
    "z", the column for "tileCol" and "x", the row for "tileRow" and "y". *)
Theorem tileUrlFunction_limits sourceInfo tms template limits info :
  parseTileMatrixSet sourceInfo tms template (Some limits) = Normal info ->
  forall (i : nat) (declared : TileMatrixSetLimit),
  limits !! i = Some declared ->
  exists matrix limit,
    matrixLookupOf (tileMatrices tms) !! tileMatrix declared = Some matrix
    /\ limitLookupOf (Some limits) !! tileMatrix declared = Some limit
    /\ In limit limits
    /\ tileMatrix limit = tileMatrix declared
    /\ (NoDup (map tileMatrix limits) -> limit = declared)
    /\ forall col row pixelRatio proj,
       let tileRow := if isBottomLeft (cornerOfOrigin matrix) then (- row - 1)%Z else row in
       let inside :=
         (minTileCol limit <= col <= maxTileCol limit)%Z
         /\ (minTileRow limit <= tileRow <= maxTileRow limit)%Z in
       (inside ->
        urlFunction info (Some (Z.of_nat i, col, row)) pixelRatio proj
        = Normal (Some (resolveUrl (url sourceInfo)
                          (replacePlaceholders
                             (placeholderText
                                (localContext (Some (tileMatrix declared)) col tileRow
                                   (context sourceInfo)))
                             None template))))
       /\ (~ inside ->
           urlFunction info (Some (Z.of_nat i, col, row)) pixelRatio proj = Normal None)
       /\ (forall k,
             ~ In k (map fst (default [] (context sourceInfo))) ->
             let substituted :=
               placeholderText
                 (localContext (Some (tileMatrix declared)) col tileRow (context sourceInfo)) in
             (In k ["tileMatrix"; "z"] -> substituted k = tileMatrix declared)
             /\ (In k ["tileCol"; "x"] -> substituted k = numberToString col)
             /\ (In k ["tileRow"; "y"] -> substituted k = numberToString tileRow)).
Proof.
  intros Hparse i declared Hi.
  destruct (parseTileMatrixSet_Normal _ _ _ _ _ Hparse) as (p & r & _ & Hd & _ & _ & _ & Hfn).
  assert (Hin : In declared limits)
    by (apply list_elem_of_In; eapply list_elem_of_lookup_2; exact Hi).
  destruct (deriveLevels_hits _ _ _ _ _ _ Hd (tileMatrix declared)) as [matrix Hm].
  { simpl. apply in_map. exact Hin. }
  destruct (lookup_foldl_insert_is_Some tileMatrix limits declared Hin) as [limit Hl].
  exists matrix, limit.
  destruct (lookup_foldl_insert_Some _ _ _ _ Hm) as [_ Hid].
  destruct (lookup_foldl_insert_Some _ _ _ _ Hl) as [Hlin Hlk].
  split; [exact Hm|]. split; [exact Hl|]. split; [exact Hlin|]. split; [exact Hlk|].
  split.
  { intros Hnd. pose proof (lookup_foldl_insert_NoDup tileMatrix limits i declared Hnd Hi) as H.
    rewrite Hl in H. congruence. }
  intros col row pixelRatio proj tileRow inside.
  assert (Hcall :
    urlFunction info (Some (Z.of_nat i, col, row)) pixelRatio proj
    = if outsideLimit limit col tileRow then Normal None
      else Normal (Some (tileUrl (url sourceInfo) template (context sourceInfo)
                           (Some (tileMatrix declared)) col tileRow))).
  { rewrite Hfn. unfold tileUrlFunction, index. simpl matrixIdsOf.
    replace (Z.of_nat i <? 0)%Z with false by (symmetry; apply Z.ltb_ge; lia).
    rewrite Nat2Z.id, list_lookup_fmap, Hi. simpl. rewrite Hm, Hid.
    unfold limitLookupOf in Hl |- *. simpl default. rewrite Hl. reflexivity. }
  split; [|split].
  - intros Hbox. rewrite Hcall. apply outsideLimit_false in Hbox. rewrite Hbox. reflexivity.
  - intros Hout. rewrite Hcall.
    destruct (outsideLimit limit col tileRow) eqn:Ho; [reflexivity|].
    apply outsideLimit_false in Ho. contradiction.
  - intros k Hk. apply (localContext_computed (Some (tileMatrix declared))). exact Hk.
Qed.

(** C6.  A supplied [sourceInfo.projection] is the projection of the
    result, and whatever the parser then throws is not a CRS error (it is a
    [TypeError] or comes from the grid constructor).  Without it, a CRS
    given as a URI string or as an object with a [uri] field is looked up in
    the registry, and a hit is the projection of the result; every other
    CRS representation (and a URI the registry does not know) makes the
    parser throw an error whose message is "Unsupported CRS: " followed by
    the JSON text of the CRS. *)
Theorem parseTileMatrixSet_projection sourceInfo tms template limits :
  (forall p, projection sourceInfo = Some p ->
     (forall info, parseTileMatrixSet sourceInfo tms template limits = Normal info ->
                   resolvedProjection info = p)
     /\ (forall e, parseTileMatrixSet sourceInfo tms template limits = Throw e ->
                   e = TypeError \/ exists options, newTileGrid options = Throw e))
  /\ (projection sourceInfo = None ->
      forall uri, crs tms = CrsString uri \/ crs tms = CrsUri uri ->
      match getProjection uri with
      | Some p =>
          resolveProjection sourceInfo tms = Normal p
          /\ forall info, parseTileMatrixSet sourceInfo tms template limits = Normal info ->
                          resolvedProjection info = p
      | None => parseTileMatrixSet sourceInfo tms template limits = Throw (unsupportedCrs tms)
      end)
  /\ (projection sourceInfo = None ->
      forall payload,
      crs tms = CrsWkt payload \/ crs tms = CrsReferenceSystem payload ->
      parseTileMatrixSet sourceInfo tms template limits = Throw (unsupportedCrs tms)).
Proof.
  split; [|split].
  - intros p Hsupplied. split.
    + intros info Hparse.
      destruct (parseTileMatrixSet_Normal _ _ _ _ _ Hparse) as (q & r & Hq & _ & _ & Hres & _).
      unfold resolveProjection in Hq. rewrite Hsupplied in Hq. congruence.
    + intros e Hparse.
      destruct (parseTileMatrixSet_Throw _ _ _ _ _ Hparse) as [Hq | Hrest]; [|exact Hrest].
      unfold resolveProjection in Hq. rewrite Hsupplied in Hq. discriminate.
  - intros Hnone uri Hcrs.
    assert (Hres : resolveProjection sourceInfo tms
                   = match getProjection uri with
                     | Some p => Normal p
                     | None => Throw (unsupportedCrs tms)
                     end).
    { unfold resolveProjection. rewrite Hnone. destruct Hcrs as [-> | ->]; reflexivity. }
    destruct (getProjection uri) as [p|].
    + split; [exact Hres|]. intros info Hparse.
      destruct (parseTileMatrixSet_Normal _ _ _ _ _ Hparse) as (q & r & Hq & _ & _ & Hp & _).
      congruence.
    + unfold parseTileMatrixSet. rewrite Hres. reflexivity.
  - intros Hnone payload Hcrs. unfold parseTileMatrixSet, resolveProjection.
    rewrite Hnone. destruct Hcrs as [-> | ->]; reflexivity.
Qed.

(** C7.  At a level whose matrix record is found, the URL function tests
    the limit and substitutes with the row [- r - 1] when the matrix's
    [cornerOfOrigin] is "bottomLeft", and with the row [r] itself when it is
    "topLeft" or absent. *)
Theorem tileUrlFunction_row matrixIds ml ll limits ctx base template
    (z col row : Z) pixelRatio proj matrix :
  ml !! toKey (index matrixIds z) = Some matrix ->
  let checked := fun tileRow : Z =>
    let built :=
      Normal (Some (tileUrl base template ctx (index matrixIds z)
                      col tileRow)) in
    match limits with
    | Some _ =>
        match ll !! id matrix with
        | Some limit => if outsideLimit limit col tileRow then Normal None else built
        | None => Throw TypeError
        end
    | None => built
    end in
  (cornerOfOrigin matrix = Some bottomLeft ->
   tileUrlFunction matrixIds ml ll limits ctx base template (Some (z, col, row)) pixelRatio proj
   = checked (- row - 1)%Z)
  /\ (cornerOfOrigin matrix = Some topLeft ->
      tileUrlFunction matrixIds ml ll limits ctx base template (Some (z, col, row)) pixelRatio proj
      = checked row)
  /\ (cornerOfOrigin matrix = None ->
      tileUrlFunction matrixIds ml ll limits ctx base template (Some (z, col, row)) pixelRatio proj
      = checked row).
Proof.
  intros Hm checked. unfold tileUrlFunction. rewrite Hm.
  repeat split; intros Hc; rewrite Hc; subst checked; simpl;
    destruct limits; try reflexivity; destruct (ll !! id matrix); reflexivity.
Qed.

(** C8.  With [orderedAxes = ["Lat"; "Lon"]] the normalized orientation is
    "ne", which does not start with "en", so the axis order counts as
    reversed; and when the parser returns, the origins handed to the grid
    are, level by level, the [pointOfOrigin] of the level's matrix with its
    two components exchanged. *)
Theorem parseTileMatrixSet_latlon_origins sourceInfo tms template limits info :
  orderedAxes tms = Some ["Lat"; "Lon"] ->
  parseTileMatrixSet sourceInfo tms template limits = Normal info ->
  (forall p, axisOrientation tms p = "ne"
             /\ startsWith "ne" "en" = false
             /\ isBackwards tms p = true)
  /\ exists options,
       newTileGrid options = Normal (grid info)
       /\ Forall2 (fun k o => exists matrix,
                     matrixLookupOf (tileMatrices tms) !! k = Some matrix
                     /\ o = (snd (pointOfOrigin matrix), fst (pointOfOrigin matrix)))
            (matrixIdsOf tms limits) (origins options).
Proof.
  intros Haxes Hparse.
  assert (Hb : forall p, axisOrientation tms p = "ne"
                         /\ startsWith "ne" "en" = false /\ isBackwards tms p = true).
  { intros p. unfold isBackwards, axisOrientation. rewrite Haxes.
    repeat split; vm_compute; reflexivity. }
  split; [exact Hb|].
  destruct (parseTileMatrixSet_Normal _ _ _ _ _ Hparse) as (p & r & _ & Hd & Hg & _).
  destruct (Hb p) as (_ & _ & Hback). rewrite Hback in Hd.
  eexists. split; [exact Hg|]. simpl.
  eapply deriveLevels_origins_swapped. exact Hd.
Qed.

(** C10.  The URL function the parser returns gives the same answer for
    any two pixel ratios and any two projections. *)
Theorem urlFunction_ignores_pixelRatio_projection sourceInfo tms template limits info :
  parseTileMatrixSet sourceInfo tms template limits = Normal info ->
  forall tileCoord pixelRatio1 pixelRatio2 proj1 proj2,
  urlFunction info tileCoord pixelRatio1 proj1 = urlFunction info tileCoord pixelRatio2 proj2.
Proof.
  intros Hparse tileCoord pixelRatio1 pixelRatio2 proj1 proj2.
  destruct (parseTileMatrixSet_Normal _ _ _ _ _ Hparse) as (p & r & _ & _ & _ & _ & _ & ->).
  reflexivity.
Qed.

End ParsingFacts.

(** ** The statements at concrete inputs *)

(** C2, as stated, fails: with a PNG link before a JPEG link and another
    preferred type, the code answers with the later link, the claim with
    the first recognized one. *)
Lemma getMapTileUrlTemplate_last_recognized_wins :
  getMapTileUrlTemplate pngThenJpeg (Some "image/webp") None = silent (Normal "B")
  /\ href <$> claimedMapFallback pngThenJpeg = Some "A".
Proof. split; vm_compute; reflexivity. Qed.

Lemma getMapTileUrlTemplate_fallback_witness :
  noExact (Some "image/webp") pngThenJpeg
  /\ nonEmptyHrefs pngThenJpeg
  /\ getMapTileUrlTemplate pngThenJpeg (Some "image/webp") None
     = silent (Normal "B").
Proof.
  assert (Hex : noExact (Some "image/webp") pngThenJpeg)
    by (repeat constructor).
  assert (Hne : nonEmptyHrefs pngThenJpeg)
    by (repeat constructor; discriminate).
  split; [exact Hex|]. split; [exact Hne|].
  rewrite (getMapTileUrlTemplate_fallback pngThenJpeg (Some "image/webp") None Hex Hne).
  reflexivity.
Defined.

(** C1, as stated, fails: a recognized "item" link is present, yet the
    supported-media-types lookup decides. *)
Lemma getVectorTileUrlTemplate_supported_before_recognized :
  getVectorTileUrlTemplate geoJsonThenHtml (Some "application/vnd.mapbox-vector-tile")
    (Some ["text/html"]) None = silent (Normal (Str "B"))
  /\ claimedVectorSelection geoJsonThenHtml ["text/html"] = Some (Str "A").
Proof. split; vm_compute; reflexivity. Qed.

Lemma getVectorTileUrlTemplate_precedence_witness :
  nonEmptyHrefs geoJsonThenHtml
  /\ getVectorTileUrlTemplate geoJsonThenHtml (Some "application/vnd.mapbox-vector-tile")
       (Some ["text/html"]) None = silent (Normal (Str "B")).
Proof.
  assert (Hne : nonEmptyHrefs geoJsonThenHtml)
    by (repeat constructor; discriminate).
  split; [exact Hne|].
  destruct (getVectorTileUrlTemplate_precedence geoJsonThenHtml
              (Some "application/vnd.mapbox-vector-tile") (Some ["text/html"]) None Hne)
    as (_ & Hsupported & _).
  apply (Hsupported ltac:(repeat constructor) [] "text/html" [] (Str "B"));
    [reflexivity | constructor | vm_compute; reflexivity | reflexivity].
Defined.

Lemma appendCollectionsQueryParam_unchanged_witness :
  appendCollectionsQueryParam "collections/roads/tiles/{z}/{x}/{y}" [] 
  = silent (Normal "collections/roads/tiles/{z}/{x}/{y}")
  /\ appendCollectionsQueryParam "collections/roads/tiles/{z}/{x}/{y}" ["rivers"]
     = {| logged := [collectionEndpointMessage];
          result := Normal "collections/roads/tiles/{z}/{x}/{y}" |}.
Proof.
  destruct (appendCollectionsQueryParam_unchanged
              "collections/roads/tiles/{z}/{x}/{y}" []) as [Hempty _].
  destruct (appendCollectionsQueryParam_unchanged
              "collections/roads/tiles/{z}/{x}/{y}" ["rivers"]) as [_ Hsegment].
  split; [apply Hempty; reflexivity|].
  eapply Hsegment; [discriminate | vm_compute; reflexivity | vm_compute; tauto].
Defined.

Lemma appendCollectionsQueryParam_example_witness :
  appendCollectionsQueryParam "tiles/{z}/{x}/{y}.png" ["a,b"; "c"]
  = silent (Normal "tiles/{z}/{x}/{y}.png?collections=a%2Cb,c").
Proof.
  eapply appendCollectionsQueryParam_example; vm_compute; reflexivity.
Defined.

(** C3, as stated, fails: a limit for a matrix the set does not contain
    makes the parser itself throw. *)
Lemma parseTileMatrixSet_unknown_limit_throws :
  parseTileMatrixSet sampleSourceInfo sampleTileMatrixSet sampleTemplate
    (Some [sampleLimit "2"; sampleLimit "7"]) = Throw TypeError
  /\ forall info,
       parseTileMatrixSet sampleSourceInfo sampleTileMatrixSet sampleTemplate
         (Some [sampleLimit "2"; sampleLimit "7"]) <> Normal info.
Proof.
  assert (H : parseTileMatrixSet sampleSourceInfo sampleTileMatrixSet sampleTemplate
                (Some [sampleLimit "2"; sampleLimit "7"]) = Throw TypeError)
    by (vm_compute; reflexivity).
  split; [exact H|]. intros info. rewrite H. discriminate.
Qed.

Lemma parseTileMatrixSet_unknown_limit_id_witness :
  In (sampleLimit "7") [sampleLimit "2"; sampleLimit "7"]
  /\ (forall matrix, In matrix sampleMatrices -> id matrix <> "7")
  /\ parseTileMatrixSet sampleSourceInfo sampleTileMatrixSet sampleTemplate
       (Some [sampleLimit "2"; sampleLimit "7"]) = Throw TypeError.
Proof.
  assert (Hin : In (sampleLimit "7") [sampleLimit "2"; sampleLimit "7"])
    by (right; left; reflexivity).
  assert (Hmissing : forall matrix, In matrix sampleMatrices -> id matrix <> "7").
  { intros matrix [<- | [<- | [<- | []]]]; discriminate. }
  split; [exact Hin|]. split; [exact Hmissing|].
  rewrite parseTileMatrixSet_unknown_limit_id with (limit := sampleLimit "7");
    [reflexivity | exact Hin | exact Hmissing].
Defined.

Lemma tileUrlFunction_limits_witness :
  exists info,
    parseTileMatrixSet sampleSourceInfo sampleTileMatrixSet sampleTemplate
      (Some [sampleLimit "2"]) = Normal info
    /\ urlFunction info (Some (0, 1, -1)%Z) (Finite 1) "EPSG:4326"
       = Normal (Some "https://example.com/tiles/2/0/1.png")
    /\ urlFunction info (Some (0, 5, -1)%Z) (Finite 1) "EPSG:4326" = Normal None.
Proof.
  destruct (parseTileMatrixSet sampleSourceInfo sampleTileMatrixSet sampleTemplate
              (Some [sampleLimit "2"])) as [info|e] eqn:Hparse;
    [|vm_compute in Hparse; discriminate].
  exists info. split; [reflexivity|]. unfold parseTileMatrixSet in Hparse.
  destruct (tileUrlFunction_limits _ _ _ _ _ Hparse
              0%nat (sampleLimit "2") eq_refl)
    as (matrix & limit & Hm & Hl & _ & _ & _ & Hurl).
  vm_compute in Hm. injection Hm as <-.
  vm_compute in Hl. injection Hl as <-.
  split.
  - apply (proj1 (Hurl 1 (-1) (Finite 1) "EPSG:4326")%Z). vm_compute. intuition discriminate.
  - apply (proj1 (proj2 (Hurl 5 (-1) (Finite 1) "EPSG:4326")%Z)). vm_compute. intuition.
Defined.

Lemma parseTileMatrixSet_projection_witness :
  (forall info,
     parseTileMatrixSet sampleSourceInfo sampleTileMatrixSet sampleTemplate None = Normal info ->
     resolvedProjection info = "EPSG:4326")
  /\ parseTileMatrixSet sampleSourceInfo sampleWktTileMatrixSet sampleTemplate None
     = Throw (Error ("Unsupported CRS: {" +:+ dquote +:+ "wkt" +:+ dquote +:+ ":{}}")).
Proof.
  split.
  - destruct (parseTileMatrixSet_projection sampleSourceInfo sampleTileMatrixSet sampleTemplate None)
      as (_ & Huri & _).
    exact (proj2 (Huri eq_refl "EPSG:4326" (or_intror eq_refl))).
  - destruct (parseTileMatrixSet_projection sampleSourceInfo sampleWktTileMatrixSet
                sampleTemplate None)
      as (_ & _ & Hother).
    exact (Hother eq_refl "{}" (or_introl eq_refl)).
Defined.

Lemma tileUrlFunction_row_witness :
  matrixLookupOf sampleMatrices !! toKey (index ["2"] 0%Z)
  = Some (sampleMatrix "2" 1 (Some bottomLeft))
  /\ tileUrlFunction ["2"] (matrixLookupOf sampleMatrices)
       (limitLookupOf (Some [sampleLimit "2"])) (Some [sampleLimit "2"]) None
       "https://example.com/tiles/" sampleTemplate (Some (0, 1, -3)%Z) (Finite 1) "EPSG:4326"
     = Normal (Some "https://example.com/tiles/2/2/1.png").
Proof.
  assert (Hm : matrixLookupOf sampleMatrices !! toKey (index ["2"] 0%Z)
               = Some (sampleMatrix "2" 1 (Some bottomLeft)))
    by (vm_compute; reflexivity).
  split; [exact Hm|].
  rewrite (proj1 (tileUrlFunction_row (types := sampleTypes) ["2"] _
                    (limitLookupOf (Some [sampleLimit "2"])) (Some [sampleLimit "2"]) None
                    "https://example.com/tiles/" sampleTemplate 0%Z 1%Z (-3)%Z (Finite 1)
                    "EPSG:4326" _ Hm) eq_refl).
  vm_compute. reflexivity.
Defined.

Lemma parseTileMatrixSet_latlon_origins_witness :
  orderedAxes sampleTileMatrixSet = Some ["Lat"; "Lon"]
  /\ exists info,
       parseTileMatrixSet sampleSourceInfo sampleTileMatrixSet sampleTemplate None = Normal info
       /\ gridOrigins (grid info)
          = [ (Finite (-180), Finite 90); (Finite (-180), Finite 90);
              (Finite (-180), Finite 90) ].
Proof.
  split; [reflexivity|].
  destruct (parseTileMatrixSet sampleSourceInfo sampleTileMatrixSet sampleTemplate None)
    as [info|e] eqn:Hparse; [|vm_compute in Hparse; discriminate].
  exists info. split; [reflexivity|]. unfold parseTileMatrixSet in Hparse.
  destruct (parseTileMatrixSet_latlon_origins sampleSourceInfo sampleTileMatrixSet sampleTemplate None info
              eq_refl Hparse) as (_ & options & Hgrid & Horigins).
  injection Hgrid as Hgrid. rewrite <- Hgrid. simpl gridOrigins.
  apply Forall2_found_images in Horigins. vm_compute in Horigins.
  injection Horigins as Horigins. symmetry. exact Horigins.
Defined.

Lemma urlFunction_ignores_pixelRatio_projection_witness :
  exists info,
    parseTileMatrixSet sampleSourceInfo sampleTileMatrixSet sampleTemplate None = Normal info
    /\ urlFunction info (Some (1, 2, 3)%Z) (Finite 1) "EPSG:4326"
       = urlFunction info (Some (1, 2, 3)%Z) (Finite 2) "EPSG:3857".
Proof.
  destruct (parseTileMatrixSet sampleSourceInfo sampleTileMatrixSet sampleTemplate None)
    as [info|e] eqn:Hparse; [|vm_compute in Hparse; discriminate].
  exists info. split; [reflexivity|]. unfold parseTileMatrixSet in Hparse.
  apply (urlFunction_ignores_pixelRatio_projection _ _ _ _ _ Hparse).
Defined.

(** ** Percent-encoding facts *)

Lemma allChars_append p s1 s2 :
  allChars p (s1 +:+ s2) = allChars p s1 && allChars p s2.
Proof.
  induction s1 as [|c s1 IH]; simpl; [reflexivity|].
  rewrite IH, andb_assoc. reflexivity.
Qed.

Lemma allChars_weaken (p q : ascii -> bool) s :
  (forall c, p c = true -> q c = true) -> allChars p s = true -> allChars q s = true.
Proof.
  intros Hpq. induction s as [|c s IH]; simpl; [reflexivity|].
  intros H. apply andb_prop in H as [Hc Hs]. rewrite (Hpq c Hc), (IH Hs). reflexivity.
Qed.

Lemma code_ascii (c : ascii) : ascii_of_N (code c) = c.
Proof. apply ascii_N_embedding. Qed.

(** The two hexadecimal digits written for a byte read back as that byte. *)
Lemma hexOctet_percentByte (c : ascii) :
  hexOctet (hexDigit (code c / 16)) (hexDigit (code c mod 16)) = Some (code c).
Proof.
  destruct c as [[] [] [] [] [] [] [] []]; vm_compute; reflexivity.
Qed.

(** What [encodeURIComponent] writes for one byte is ASCII without spaces,
    commas or ampersands. *)
Lemma encoded_byte_safe (c : ascii) :
  allChars (fun x => isQuerySafe x && isNot "," x && isNot "&" x)
    (if uriUnreserved c then String c "" else percentByte c) = true.
Proof.
  destruct c as [[] [] [] [] [] [] [] []]; vm_compute; reflexivity.
Qed.

Lemma encodeURIComponent_safe (s : string) :
  allChars (fun x => isQuerySafe x && isNot "," x && isNot "&" x) (encodeURIComponent s) = true.
Proof.
  induction s as [|c s IH]; [reflexivity|].
  simpl. rewrite allChars_append, encoded_byte_safe, IH. reflexivity.
Qed.

Lemma decodeFrom_plain (c : ascii) (rest : string) :
  c <> "%"%char ->
  decodeFrom [] 0 (String c rest)
  = bind (decodeFrom [] 0 rest) (fun r => Normal (String c r)).
Proof.
  intros Hc. cbn [decodeFrom]. destruct (Ascii.eqb_spec c "%"); [contradiction | reflexivity].
Qed.

Lemma decodeFrom_escape (c : ascii) (rest : string) :
  isAscii c = true ->
  decodeFrom [] 0 (percentByte c +:+ rest)
  = bind (decodeFrom [] 0 rest) (fun r => Normal (String c r)).
Proof.
  intros Hc. unfold percentByte. simpl.
  rewrite hexOctet_percentByte. unfold isAscii in Hc. rewrite Hc, code_ascii. reflexivity.
Qed.

(** Decoding undoes the form serializer on ASCII text without spaces. *)
Lemma decodeURIComponent_formEncode (s : string) :
  allChars isQuerySafe s = true -> decodeURIComponent (formEncode s) = Normal s.
Proof.
  unfold decodeURIComponent. induction s as [|c s IH]; [reflexivity|].
  cbn [allChars formEncode]. intros H. apply andb_prop in H as [Hc Hs]. specialize (IH Hs).
  unfold isQuerySafe in Hc. apply andb_prop in Hc as [Hascii Hspace].
  destruct (formSafe c) eqn:Hsafe.
  - change (String c "" +:+ formEncode s) with (String c (formEncode s)).
    rewrite decodeFrom_plain, IH; [reflexivity|].
    intros ->. discriminate Hsafe.
  - destruct (Ascii.eqb c " ") eqn:Hsp; [discriminate Hspace|].
    rewrite (decodeFrom_escape c _ Hascii), IH. reflexivity.
Qed.

(** Decoding undoes [encodeURIComponent] on ASCII text. *)
Lemma decodeURIComponent_encodeURIComponent (s : string) :
  allChars isAscii s = true -> decodeURIComponent (encodeURIComponent s) = Normal s.
Proof.
  unfold decodeURIComponent. induction s as [|c s IH]; [reflexivity|].
  cbn [allChars encodeURIComponent]. intros H. apply andb_prop in H as [Hc Hs].
  specialize (IH Hs).
  destruct (uriUnreserved c) eqn:Hsafe.
  - change (String c "" +:+ encodeURIComponent s) with (String c (encodeURIComponent s)).
    rewrite decodeFrom_plain, IH; [reflexivity|].
    intros ->. discriminate Hsafe.
  - rewrite (decodeFrom_escape c _ Hc), IH. reflexivity.
Qed.

Lemma split_without_separator (sep : ascii) (s : string) :
  allChars (isNot sep) s = true -> split sep s = [s].
Proof.
  induction s as [|c s IH]; [reflexivity|].
  simpl. intros H. apply andb_prop in H as [Hc Hs]. unfold isNot in Hc.
  destruct (Ascii.eqb c sep); [discriminate|]. rewrite (IH Hs). reflexivity.
Qed.

Lemma split_at_separator (sep : ascii) (s rest : string) :
  allChars (isNot sep) s = true ->
  split sep (s +:+ String sep rest) = s :: split sep rest.
Proof.
  induction s as [|c s IH]; simpl.
  - intros _. rewrite Ascii.eqb_refl. reflexivity.
  - intros H. apply andb_prop in H as [Hc Hs]. unfold isNot in Hc.
    destruct (Ascii.eqb c sep); [discriminate|]. rewrite (IH Hs). reflexivity.
Qed.

Lemma split_join (sep : ascii) (parts : list string) :
  parts <> [] ->
  Forall (fun s => allChars (isNot sep) s = true) parts ->
  split sep (join (String sep "") parts) = parts.
Proof.
  intros Hne Hall. induction Hall as [|s parts Hs Hall IH]; [contradiction|].
  destruct parts as [|s' parts'].
  - simpl. apply split_without_separator. exact Hs.
  - change (join (String sep "") (s :: s' :: parts'))
      with (s +:+ String sep (join (String sep "") (s' :: parts'))).
    rewrite (split_at_separator sep s _ Hs), IH by discriminate. reflexivity.
Qed.

(** ** More on the collections parameter and on link selection *)

Section MoreSelectionFacts.

Context {urls : UrlHost}.

Lemma split_cons (sep : ascii) (s : string) :
  exists first rest, split sep s = first :: rest.
Proof.
  induction s as [|c s (first & rest & IH)]; simpl; [eauto|].
  destruct (Ascii.eqb c sep); [eauto|]. rewrite IH. eauto.
Qed.

Lemma beforeQuery_index (t : string) : toKey (index (split "?" t) 0) = beforeQuery t.
Proof.
  unfold beforeQuery. destruct (split_cons "?" t) as (first & rest & ->). reflexivity.
Qed.

Lemma allChars_join p (sep : string) (parts : list string) :
  allChars p sep = true ->
  Forall (fun s => allChars p s = true) parts ->
  allChars p (join sep parts) = true.
Proof.
  intros Hsep Hall. induction Hall as [|s parts Hs Hall IH]; [reflexivity|].
  destruct parts as [|s' parts']; [exact Hs|].
  change (join sep (s :: s' :: parts')) with (s +:+ sep +:+ join sep (s' :: parts')).
  rewrite !allChars_append, Hs, Hsep, IH. reflexivity.
Qed.

Lemma encoded_collections_safe (cs : list string) :
  allChars isQuerySafe (join "," (map encodeURIComponent cs)) = true.
Proof.
  apply allChars_join; [reflexivity|].
  apply List.Forall_forall. intros s Hin. apply in_map_iff in Hin as (c & <- & _).
  eapply allChars_weaken; [|apply encodeURIComponent_safe].
  intros x Hx. apply andb_prop in Hx as [Hx _]. apply andb_prop in Hx as [Hx _]. exact Hx.
Qed.

(** X1.  For a template whose URL has no query and no "collections" path
    segment, and a non-empty list, the result is the template up to its
    first question mark, then "?collections=", then the identifiers, each
    percent-encoded by itself, joined by bare commas: serializing and
    decoding the query leaves that value as it was. *)
Theorem appendCollectionsQueryParam_appends (t : string) (cs : list string) (u : URL) :
  cs <> [] ->
  newURL t "file:/" = Some u ->
  includes (split "/" (pathname u)) "collections" = false ->
  searchParams u = [] ->
  appendCollectionsQueryParam t cs
  = silent (Normal (beforeQuery t +:+ "?collections="
                    +:+ join "," (map encodeURIComponent cs))).
Proof.
  intros Hcs Hu Hpath Hq. unfold appendCollectionsQueryParam.
  destruct cs as [|c cs']; [contradiction|].
  rewrite Hu, Hpath, Hq, beforeQuery_index.
  set (v := join "," (map encodeURIComponent (c :: cs'))).
  assert (Hdec : decodeURIComponent (searchParamsToString ([] ++ [("collections", v)]))
                 = Normal ("collections=" +:+ v)).
  { change (searchParamsToString ([] ++ [("collections", v)]))
      with ("collections=" +:+ formEncode v).
    pose proof (decodeURIComponent_formEncode v (encoded_collections_safe (c :: cs'))) as Hv.
    unfold decodeURIComponent in *.
    change ("collections=" +:+ formEncode v)
      with (String "c" (String "o" (String "l" (String "l" (String "e" (String "c"
             (String "t" (String "i" (String "o" (String "n" (String "s" (String "="
             (formEncode v))))))))))))).
    rewrite !decodeFrom_plain by discriminate. rewrite Hv. reflexivity. }
  rewrite Hdec. reflexivity.
Qed.

(** X2.  The value written for a non-empty list splits at its commas into
    exactly the encoded identifiers, and for ASCII identifiers decoding
    each part gives the identifier back. *)
Theorem encoded_collections_round_trip (cs : list string) :
  cs <> [] ->
  split "," (join "," (map encodeURIComponent cs)) = map encodeURIComponent cs
  /\ (Forall (fun c => allChars isAscii c = true) cs ->
      Forall2 (fun part c => decodeURIComponent part = Normal c)
        (split "," (join "," (map encodeURIComponent cs))) cs).
Proof.
  intros Hcs.
  assert (Hsplit : split "," (join "," (map encodeURIComponent cs))
                   = map encodeURIComponent cs).
  { apply split_join; [destruct cs; [contradiction | discriminate]|].
    apply List.Forall_forall. intros s Hin. apply in_map_iff in Hin as (c & <- & _).
    eapply allChars_weaken; [|apply encodeURIComponent_safe].
    intros x Hx. apply andb_prop in Hx as [Hx _]. apply andb_prop in Hx as [_ Hx]. exact Hx. }
  split; [exact Hsplit|]. intros Hascii. rewrite Hsplit. clear Hsplit Hcs.
  induction Hascii as [|c cs Hc _ IH]; constructor; [|exact IH].
  apply decodeURIComponent_encodeURIComponent. exact Hc.
Qed.

Lemma scanMapLinks_exact mediaType pre l post :
  noExact mediaType pre -> exactItem mediaType l = true ->
  forall fb, exists fb',
    scanMapLinks mediaType (pre ++ l :: post) fb = (Some (href l), fb').
Proof.
  intros Hex Hl. induction pre as [|l0 pre IH]; intros fb.
  - simpl. unfold exactItem, isItem in Hl. apply andb_prop in Hl as [Hrel Hty].
    rewrite Hrel, Hty. eauto.
  - inversion Hex as [|? ? Hl0 Hex']; subst. simpl.
    unfold exactItem, isItem in Hl0.
    destruct (rel l0 =? "item"); simpl in Hl0; [|apply (IH Hex')].
    rewrite Hl0. destruct (knownMapMediaTypes (type l0)); [apply (IH Hex')|].
    destruct (negb (truthyString fb) && startsWith (type l0) "image/"); apply (IH Hex').
Qed.

(** X3.  The first "item" link whose type is exactly the preferred one
    decides, whatever precedes or follows it: its href, when not empty, is
    selected and goes through the collections step. *)
Theorem getMapTileUrlTemplate_exact mediaType pre l post collections :
  noExact mediaType pre -> exactItem mediaType l = true -> href l <> "" ->
  getMapTileUrlTemplate (pre ++ l :: post) mediaType collections
  = withCollections (href l) collections.
Proof.
  intros Hpre Hl Hh. unfold getMapTileUrlTemplate.
  destruct (scanMapLinks_exact mediaType pre l post Hpre Hl None) as [fb' ->].
  rewrite (truthyString_Some _ Hh). reflexivity.
Qed.

Lemma truthyString_true o : truthyString o = true -> exists s, o = Some s /\ s <> "".
Proof.
  destruct o as [s|]; simpl; [|discriminate].
  destruct (String.eqb_spec s ""); [discriminate|]. eauto.
Qed.

Lemma scanMapLinks_sound mediaType links :
  forall fb exact fb',
  scanMapLinks mediaType links fb = (exact, fb') ->
  (forall h, exact = Some h ->
     exists l, In l links /\ exactItem mediaType l = true /\ href l = h)
  /\ (forall h, fb' = Some h ->
        fb = Some h
        \/ exists l, In l links /\ (knownMapItem l || imageItem l) = true /\ href l = h).
Proof.
  induction links as [|l links IH]; intros fb exact fb'; simpl.
  - intros [= <- <-]. split; [discriminate | auto].
  - unfold exactItem, knownMapItem, imageItem, isItem.
    destruct (rel l =? "item") eqn:Hrel.
    + destruct (isMediaType (type l) mediaType) eqn:Hty.
      * intros [= <- <-]. split; [|auto].
        intros h [= <-]. exists l. rewrite Hrel, Hty. auto.
      * destruct (knownMapMediaTypes (type l)) eqn:Hk.
        -- intros Hs. destruct (IH _ _ _ Hs) as [Hex Hfb]. split.
           ++ intros h Hh. destruct (Hex h Hh) as (l' & ? & ? & ?). exists l'. auto.
           ++ intros h Hh. destruct (Hfb h Hh) as [[= <-] | (l' & ? & ? & ?)].
              ** right. exists l. rewrite Hrel, Hk. auto.
              ** right. exists l'. auto.
        -- destruct (negb (truthyString fb) && startsWith (type l) "image/") eqn:Hi.
           ++ intros Hs. destruct (IH _ _ _ Hs) as [Hex Hfb]. split.
              ** intros h Hh. destruct (Hex h Hh) as (l' & ? & ? & ?). exists l'. auto.
              ** intros h Hh. destruct (Hfb h Hh) as [[= <-] | (l' & ? & ? & ?)].
                 --- right. exists l. apply andb_prop in Hi as [_ Hi].
                     rewrite Hrel, Hi, orb_true_r. auto.
                 --- right. exists l'. auto.
           ++ intros Hs. destruct (IH _ _ _ Hs) as [Hex Hfb]. split.
              ** intros h Hh. destruct (Hex h Hh) as (l' & ? & ? & ?). exists l'. auto.
              ** intros h Hh. destruct (Hfb h Hh) as [? | (l' & ? & ? & ?)]; [auto|].
                 right. exists l'. auto.
    + intros Hs. destruct (IH _ _ _ Hs) as [Hex Hfb]. split.
      * intros h Hh. destruct (Hex h Hh) as (l' & ? & ? & ?). exists l'. auto.
      * intros h Hh. destruct (Hfb h Hh) as [? | (l' & ? & ? & ?)]; [auto|].
        right. exists l'. auto.
Qed.

(** X4.  Whatever [getMapTileUrlTemplate] returns without collections is
    the non-empty href of an "item" link of the list whose type is the
    preferred one, a recognized one or an "image/" one; a link with
    another [rel] is never selected and an empty template never
    returned. *)
Theorem getMapTileUrlTemplate_selects_item links mediaType t :
  result (getMapTileUrlTemplate links mediaType None) = Normal t ->
  t <> ""
  /\ exists l, In l links /\ isItem l = true /\ href l = t
               /\ (exactItem mediaType l || knownMapItem l || imageItem l) = true.
Proof.
  unfold getMapTileUrlTemplate.
  destruct (scanMapLinks mediaType links None) as [exact fb] eqn:Hscan.
  destruct (scanMapLinks_sound _ _ _ _ _ Hscan) as [Hex Hfb].
  destruct (truthyString exact) eqn:Hte.
  - destruct (truthyString_true _ Hte) as (s & -> & Hs). simpl. intros [= <-].
    split; [exact Hs|]. destruct (Hex s eq_refl) as (l & Hin & Hl & Hh).
    exists l. rewrite Hl. unfold exactItem in Hl. apply andb_prop in Hl as [Hl _]. auto.
  - destruct (truthyString fb) eqn:Htf; [|simpl; discriminate].
    destruct (truthyString_true _ Htf) as (s & -> & Hs). simpl. intros [= <-].
    split; [exact Hs|]. destruct (Hfb s eq_refl) as [Hnone | (l & Hin & Hl & Hh)];
      [discriminate|].
    exists l. rewrite <- orb_assoc, Hl, orb_true_r.
    assert (isItem l = true).
    { unfold knownMapItem, imageItem in Hl. destruct (isItem l); [reflexivity | discriminate]. }
    auto.
Qed.

Lemma scanMapLinks_noItem mediaType links fb :
  Forall (fun l => isItem l = false) links ->
  scanMapLinks mediaType links fb = (None, fb).
Proof.
  induction 1 as [|l links Hl _ IH]; [reflexivity|].
  simpl. unfold isItem in Hl. rewrite Hl. exact IH.
Qed.

(** X5.  A list without an "item" link, the empty list included, makes
    [getMapTileUrlTemplate] throw the "no item link" error, whatever the
    preferred type and the collections. *)
Theorem getMapTileUrlTemplate_no_item links mediaType collections :
  Forall (fun l => isItem l = false) links ->
  getMapTileUrlTemplate links mediaType collections = silent (Throw noItemLink).
Proof.
  intros Hno. unfold getMapTileUrlTemplate.
  rewrite (scanMapLinks_noItem mediaType links None Hno). reflexivity.
Qed.

(** The table after a run of writes holds, under every key but
    [__proto__], the href of the last link written with that type. *)
Lemma hrefLookup_last (links : list Link) (acc : gmap string string) (k : string) :
  k <> "__proto__" ->
  foldl (fun o l => set o (type l) (href l)) acc links !! k
  = match lastLink (hasType k) links with
    | Some l => Some (href l)
    | None => acc !! k
    end.
Proof.
  intros Hk. revert acc. induction links as [|l links IH]; intros acc; [reflexivity|].
  simpl. rewrite IH, lastLink_cons. destruct (lastLink (hasType k) links); [reflexivity|].
  unfold hasType, set. destruct (String.eqb_spec (type l) k) as [Heq | Hne].
  - subst k. destruct (String.eqb_spec (type l) "__proto__"); [contradiction|].
    apply lookup_insert_eq.
  - destruct (type l =? "__proto__"); [reflexivity|]. apply lookup_insert_ne. exact Hne.
Qed.

Lemma hrefLookup_proto (links : list Link) (acc : gmap string string) :
  foldl (fun o l => set o (type l) (href l)) acc links !! "__proto__" = acc !! "__proto__".
Proof.
  revert acc. induction links as [|l links IH]; intros acc; [reflexivity|].
  simpl. rewrite IH. unfold set. destruct (String.eqb_spec (type l) "__proto__"); [reflexivity|].
  apply lookup_insert_ne. assumption.
Qed.

Lemma hrefLookup_sound (links : list Link) (acc : gmap string string) (k h : string) :
  foldl (fun o l => set o (type l) (href l)) acc links !! k = Some h ->
  acc !! k = Some h \/ exists l, In l links /\ type l = k /\ href l = h.
Proof.
  destruct (String.eqb_spec k "__proto__") as [-> | Hk].
  - rewrite hrefLookup_proto. auto.
  - rewrite (hrefLookup_last links acc k Hk).
    destruct (lastLink (hasType k) links) as [l|] eqn:Hlast; [|auto].
    intros [= <-]. right. exists l. split; [eapply lastLink_In; exact Hlast|].
    unfold lastLink in Hlast. apply last_Some in Hlast as [pre Hpre].
    assert (Hin : In l (List.filter (hasType k) links))
      by (rewrite Hpre; apply in_app_iff; right; left; reflexivity).
    apply filter_In in Hin as [_ Hty]. apply String.eqb_eq in Hty. auto.
Qed.

Lemma scanVectorLinks_sound mediaType links :
  forall fb tbl exact fb' tbl',
  scanVectorLinks mediaType links fb tbl = (exact, fb', tbl') ->
  (forall h, exact = Some h ->
     exists l, In l links /\ exactItem mediaType l = true /\ href l = h)
  /\ (forall h, fb' = Some h ->
        fb = Some h \/ exists l, In l links /\ knownVectorItem l = true /\ href l = h)
  /\ (forall k h, tbl' !! k = Some h ->
        tbl !! k = Some h \/ exists l, In l links /\ href l = h).
Proof.
  induction links as [|l links IH]; intros fb tbl exact fb' tbl'; simpl.
  - intros [= <- <- <-]. repeat split; [discriminate | auto | auto].
  - assert (Hset : forall k h, set tbl (type l) (href l) !! k = Some h ->
                     tbl !! k = Some h \/ href l = h).
    { intros k h. unfold set. destruct (type l =? "__proto__"); [auto|].
      destruct (String.eqb_spec (type l) k) as [<- | Hne].
      - rewrite lookup_insert_eq. intros [= <-]. auto.
      - rewrite lookup_insert_ne by exact Hne. auto. }
    assert (Hrest : forall fb0,
      scanVectorLinks mediaType links fb0 (set tbl (type l) (href l)) = (exact, fb', tbl') ->
      (forall h, exact = Some h ->
         exists l0, In l0 (l :: links) /\ exactItem mediaType l0 = true /\ href l0 = h)
      /\ (forall h, fb' = Some h ->
            fb0 = Some h
            \/ exists l0, In l0 (l :: links) /\ knownVectorItem l0 = true /\ href l0 = h)
      /\ (forall k h, tbl' !! k = Some h ->
            tbl !! k = Some h \/ exists l0, In l0 (l :: links) /\ href l0 = h)).
    { intros fb0 Hs. destruct (IH _ _ _ _ _ Hs) as (Hex & Hfb & Htbl). repeat split.
      - intros h Hh. destruct (Hex h Hh) as (l' & ? & ? & ?). exists l'. simpl. auto.
      - intros h Hh. destruct (Hfb h Hh) as [? | (l' & ? & ? & ?)]; [auto|].
        right. exists l'. simpl. auto.
      - intros k h Hh. destruct (Htbl k h Hh) as [Hk | (l' & ? & ?)].
        + destruct (Hset k h Hk); [auto|]. right. exists l. simpl. auto.
        + right. exists l'. simpl. auto. }
    unfold exactItem, knownVectorItem, isItem.
    destruct (rel l =? "item") eqn:Hrel; [|apply Hrest].
    destruct (isMediaType (type l) mediaType) eqn:Hty.
    + intros [= <- <- <-]. repeat split.
      * intros h [= <-]. exists l. rewrite Hrel, Hty. simpl. auto.
      * auto.
      * intros k h Hk. destruct (Hset k h Hk); [auto|]. right. exists l. simpl. auto.
    + destruct (knownVectorMediaTypes (type l)) eqn:Hk; [|apply Hrest].
      intros Hs. destruct (Hrest _ Hs) as (Hex & Hfb & Htbl). repeat split; [exact Hex| |exact Htbl].
      intros h Hh. destruct (Hfb h Hh) as [[= <-] | ?]; [|auto].
      right. exists l. unfold knownVectorItem, isItem. rewrite Hrel, Hk. simpl. auto.
Qed.

Lemma firstSupported_sound tbl sup v :
  firstSupported tbl sup = Some v ->
  truthy (Some v) = true /\ exists s, In s sup /\ get tbl s = Some v.
Proof.
  induction sup as [|s sup IH]; simpl; [discriminate|].
  destruct (truthy (get tbl s)) eqn:Ht.
  - intros Hv. rewrite Hv in Ht. split; [exact Ht|]. exists s. auto.
  - intros Hv. destruct (IH Hv) as (? & s' & ? & ?). split; [assumption|]. exists s'. auto.
Qed.

(** X6.  A string that [getVectorTileUrlTemplate] returns without
    collections is the non-empty href of a link of the list; without a
    supported-media-types list that link is an "item" link. *)
Theorem getVectorTileUrlTemplate_selects_link links mediaType supported t :
  result (getVectorTileUrlTemplate links mediaType supported None) = Normal (Str t) ->
  t <> ""
  /\ exists l, In l links /\ href l = t /\ (supported = None -> isItem l = true).
Proof.
  unfold getVectorTileUrlTemplate.
  destruct (scanVectorLinks mediaType links None ∅) as [[exact fb] tbl] eqn:Hscan.
  destruct (scanVectorLinks_sound _ _ _ _ _ _ _ Hscan) as (Hex & Hfb & Htbl).
  assert (Hexact : forall s, exact = Some s ->
            exists l, In l links /\ href l = s /\ (supported = None -> isItem l = true)).
  { intros s Hs. destruct (Hex s Hs) as (l & Hin & Hl & Hh). exists l.
    unfold exactItem in Hl. apply andb_prop in Hl as [Hl _]. auto. }
  assert (Hfallback : forall s, fb = Some s ->
            exists l, In l links /\ href l = s /\ (supported = None -> isItem l = true)).
  { intros s Hs. destruct (Hfb s Hs) as [Hnone | (l & Hin & Hl & Hh)]; [discriminate|].
    exists l. unfold knownVectorItem in Hl. apply andb_prop in Hl as [Hl _]. auto. }
  assert (Htail : forall chosen : option value,
    (forall s, chosen = Some (Str s) -> s = "" -> exact = Some s) ->
    (forall s, chosen = Some (Str s) -> s <> "" ->
       exists l, In l links /\ href l = s /\ (supported = None -> isItem l = true)) ->
    result
      match (if truthy chosen then chosen
             else if truthyString fb then Str <$> fb else None) with
      | Some tileUrlTemplate => silent (Normal tileUrlTemplate)
      | None => silent (Throw noItemLink)
      end = Normal (Str t) ->
    t <> "" /\ exists l, In l links /\ href l = t /\ (supported = None -> isItem l = true)).
  { intros chosen _ Hchosen. destruct (truthy chosen) eqn:Htc.
    - destruct chosen as [[s|name]|]; simpl in *; try discriminate.
      intros [= <-]. destruct (String.eqb_spec s ""); [discriminate|]. auto.
    - destruct (truthyString fb) eqn:Htf; [|simpl; discriminate].
      destruct (truthyString_true _ Htf) as (s & -> & Hs). simpl. intros [= <-]. auto. }
  destruct supported as [sup|].
  - destruct (truthy (Str <$> exact)) eqn:Hte.
    + intros H. eapply (Htail (Str <$> exact)); [ | |exact H].
      * intros s Hs _. destruct exact; simpl in Hs; congruence.
      * intros s Hs _. apply Hexact. destruct exact; simpl in Hs; congruence.
    + destruct (firstSupported tbl sup) as [v|] eqn:Hsup.
      * destruct (firstSupported_sound _ _ _ Hsup) as (Hv & s0 & _ & Hget).
        rewrite Hv. destruct v as [s|name]; simpl; [|discriminate].
        intros [= <-]. simpl in Hv. destruct (String.eqb_spec s ""); [discriminate|].
        split; [assumption|]. unfold get in Hget.
        destruct (tbl !! s0) as [h|] eqn:Hown.
        -- injection Hget as <-. destruct (Htbl s0 h Hown) as [Hempty | (l & ? & ?)].
           ++ rewrite lookup_empty in Hempty. discriminate.
           ++ exists l. repeat split; [assumption | assumption | discriminate].
        -- destruct (inherited s0); discriminate.
      * intros H. eapply (Htail (Str <$> exact)); [ | |exact H].
        -- intros s Hs _. destruct exact; simpl in Hs; congruence.
        -- intros s Hs _. apply Hexact. destruct exact; simpl in Hs; congruence.
  - intros H. eapply (Htail (Str <$> exact)); [ | |exact H].
    + intros s Hs _. destruct exact; simpl in Hs; congruence.
    + intros s Hs _. apply Hexact. destruct exact; simpl in Hs; congruence.
Qed.

(** X7.  Without an exact match, when the first supported media type is
    the type of some link, any [rel], the href of the LAST link of that
    type is selected (if not empty), before any recognized "item" link and
    whatever the rest of the supported list. *)
Theorem getVectorTileUrlTemplate_last_of_type links mediaType s more l collections :
  noExact mediaType links ->
  s <> "__proto__" ->
  lastLink (hasType s) links = Some l ->
  href l <> "" ->
  getVectorTileUrlTemplate links mediaType (Some (s :: more)) collections
  = withCollectionsValue (Str (href l)) collections.
Proof.
  intros Hex Hs Hlast Hh. unfold getVectorTileUrlTemplate.
  rewrite (scanVectorLinks_noExact mediaType links Hex None ∅).
  assert (Hget : get (foldl (fun o l => set o (type l) (href l)) ∅ links) s
                 = Some (Str (href l))).
  { unfold get. rewrite (hrefLookup_last links ∅ s Hs), Hlast. reflexivity. }
  assert (Ht : truthy (Some (Str (href l))) = true) by (apply (truthyString_Some _ Hh)).
  simpl fmap. simpl truthy at 1. cbv iota. cbn [firstSupported].
  rewrite Hget, Ht, Ht. reflexivity.
Qed.

(** X8.  Without an exact match, a first supported media type that names
    a member of [Object.prototype] and is the type of no link makes
    [getVectorTileUrlTemplate] return that member, not a string. *)
Theorem getVectorTileUrlTemplate_inherited links mediaType k more :
  noExact mediaType links ->
  inherited k = true ->
  Forall (fun l => type l <> k) links ->
  getVectorTileUrlTemplate links mediaType (Some (k :: more)) None
  = silent (Normal (Inherited k)).
Proof.
  intros Hex Hk Hno. unfold getVectorTileUrlTemplate.
  rewrite (scanVectorLinks_noExact mediaType links Hex None ∅).
  assert (Hget : get (foldl (fun o l => set o (type l) (href l)) ∅ links) k
                 = Some (Inherited k)).
  { unfold get.
    destruct (foldl (fun o l => set o (type l) (href l)) ∅ links !! k) as [h|] eqn:Hown.
    - destruct (hrefLookup_sound links ∅ k h Hown) as [Hempty | (l & Hin & Hty & _)].
      + rewrite lookup_empty in Hempty. discriminate.
      + destruct (proj1 (List.Forall_forall _ _) Hno l Hin Hty).
    - rewrite Hk. reflexivity. }
  simpl fmap. simpl truthy at 1. cbv iota. cbn [firstSupported].
  rewrite Hget. reflexivity.
Qed.


End MoreSelectionFacts.

(** ** More on the parser and on the URL function *)

Section MoreParsingFacts.

Context {urls : UrlHost} {types : HostTypes} {host : Host}.

Lemma deriveLevels_Normal_inv b ml ll ids ext r :
  deriveLevels b ml ll ids ext = Normal r ->
  Forall2 (fun k level => exists matrix, ml !! k = Some matrix /\ level = levelOf b matrix)
    ids (fst r)
  /\ snd r
     = foldl (fun e k =>
                match ml !! k, ll !! k with
                | Some matrix, Some limit => intersectExtents e (levelBox b matrix limit)
                | _, _ => e
                end) ext ids.
Proof.
  revert ext r. induction ids as [|k ids IH]; intros ext r; simpl.
  - intros [= <-]. split; [constructor | reflexivity].
  - destruct (ml !! k) as [matrix|] eqn:Hk; [|discriminate].
    match goal with |- context [deriveLevels b ml ll ids ?x] =>
      destruct (deriveLevels b ml ll ids x) as [r'|] eqn:Hd end; simpl; [|discriminate].
    intros [= <-]. destruct (IH _ _ Hd) as [Hlevels Hext]. simpl. split.
    + constructor; [|exact Hlevels]. exists matrix. split; [exact Hk|].
      unfold levelOf, orientedOrigin. destruct b; reflexivity.
    + rewrite Hext. unfold levelBox, orientedOrigin.
      destruct (ll !! k); destruct b; reflexivity.
Qed.

Lemma deriveLevels_total b ml ll ids ext :
  (forall k, In k ids -> exists matrix, ml !! k = Some matrix) ->
  exists r, deriveLevels b ml ll ids ext = Normal r.
Proof.
  revert ext. induction ids as [|k ids IH]; intros ext Hhit; simpl; [eauto|].
  destruct (Hhit k (or_introl eq_refl)) as [matrix ->].
  match goal with |- context [deriveLevels b ml ll ids ?x] =>
    destruct (IH x (fun k' H => Hhit k' (or_intror H))) as [r ->] end.
  simpl. eauto.
Qed.

Lemma resolveProjection_Throw sourceInfo tms e :
  resolveProjection sourceInfo tms = Throw e -> e = unsupportedCrs tms.
Proof.
  unfold resolveProjection. destruct (projection sourceInfo); [discriminate|].
  destruct (crs tms); try destruct (getProjection _); congruence.
Qed.

(** X9.  Without limits the level loop cannot fail: the parser throws only
    the "Unsupported CRS" error or what the grid constructor throws, even
    when matrix ids repeat. *)
Theorem parseTileMatrixSet_without_limits_failures sourceInfo tms template e :
  parseTileMatrixSet sourceInfo tms template None = Throw e ->
  e = unsupportedCrs tms \/ exists options, newTileGrid options = Throw e.
Proof.
  unfold parseTileMatrixSet.
  destruct (resolveProjection sourceInfo tms) as [p|e'] eqn:Hp; simpl.
  - match goal with |- context [deriveLevels ?b ?ml ?ll ?ids ?x] =>
      destruct (deriveLevels_total b ml ll ids x) as [r ->] end.
    { simpl. intros k Hin. apply in_map_iff in Hin as (matrix & <- & Hin).
      apply (lookup_foldl_insert_is_Some id). exact Hin. }
    simpl. match goal with |- context [newTileGrid ?o] =>
      destruct (newTileGrid o) as [g|e'] eqn:Hg end; simpl; [discriminate|].
    intros [= <-]. eauto.
  - intros [= <-]. left. eapply resolveProjection_Throw. exact Hp.
Qed.

Lemma Forall2_levels_of_matrices b (ml : gmap string TileMatrix) matrices levels :
  (forall matrix, In matrix matrices -> ml !! id matrix = Some matrix) ->
  Forall2 (fun k level => exists matrix, ml !! k = Some matrix /\ level = levelOf b matrix)
    (map id matrices) levels ->
  levels = map (levelOf b) matrices.
Proof.
  revert levels. induction matrices as [|m matrices IH]; intros levels Hown H; simpl in H.
  - inversion H. reflexivity.
  - inversion H as [|? level ? levels' (m' & Hm' & ->) Hrest]; subst. simpl.
    rewrite (Hown m (or_introl eq_refl)) in Hm'. injection Hm' as <-.
    f_equal. apply IH; [|exact Hrest]. intros m0 Hin. apply Hown. right. exact Hin.
Qed.

(** X10.  Without limits and with distinct matrix ids, the grid is built
    from one level per matrix, in the declared order: the oriented origin,
    the cell size, the matrix size and the tile size of each, and no
    extent. *)
Theorem parseTileMatrixSet_levels_without_limits sourceInfo tms template info :
  NoDup (map id (tileMatrices tms)) ->
  parseTileMatrixSet sourceInfo tms template None = Normal info ->
  exists options,
    newTileGrid options = Normal (grid info)
    /\ origins options
       = map (orientedOrigin (isBackwards tms (resolvedProjection info))) (tileMatrices tms)
    /\ resolutions options = map cellSize (tileMatrices tms)
    /\ sizes options = map (fun m => (matrixWidth m, matrixHeight m)) (tileMatrices tms)
    /\ tileSizes options = map (fun m => (tileWidth m, tileHeight m)) (tileMatrices tms)
    /\ extent options = None.
Proof.
  intros Hnd Hparse.
  destruct (parseTileMatrixSet_Normal _ _ _ _ _ Hparse) as (p & r & _ & Hd & Hg & Hp & _).
  destruct (deriveLevels_Normal_inv _ _ _ _ _ _ Hd) as [Hlevels _].
  apply Forall2_levels_of_matrices in Hlevels.
  2:{ intros matrix Hin. apply list_elem_of_In, list_elem_of_lookup in Hin as [i Hi].
      apply (lookup_foldl_insert_NoDup id _ i matrix Hnd Hi). }
  eexists. split; [exact Hg|]. simpl. rewrite Hlevels, Hp, !map_map.
  repeat split; reflexivity.
Qed.

Lemma parseTileMatrixSet_levels_with_limits_aux sourceInfo tms template limits info :
  parseTileMatrixSet sourceInfo tms template (Some limits) = Normal info ->
  exists options matrices p (r : list Level * Extent),
    newTileGrid options = Normal (grid info)
    /\ Forall2 (fun limit matrix =>
                  matrixLookupOf (tileMatrices tms) !! tileMatrix limit = Some matrix)
         limits matrices
    /\ resolvedProjection info = p
    /\ extent options = Some (snd r)
    /\ snd r
       = foldl (fun e k =>
                  match matrixLookupOf (tileMatrices tms) !! k,
                        limitLookupOf (Some limits) !! k with
                  | Some matrix, Some limit =>
                      intersectExtents e (levelBox (isBackwards tms p) matrix limit)
                  | _, _ => e
                  end) (negInfinity, negInfinity, posInfinity, posInfinity)
           (map tileMatrix limits).
Proof.
  intros Hparse.
  destruct (parseTileMatrixSet_Normal _ _ _ _ _ Hparse) as (p & r & _ & Hd & Hg & Hp & _).
  destruct (deriveLevels_Normal_inv _ _ _ _ _ _ Hd) as [Hlevels Hext].
  assert (Hm : exists matrices,
    Forall2 (fun limit matrix =>
               matrixLookupOf (tileMatrices tms) !! tileMatrix limit = Some matrix)
      limits matrices).
  { simpl in Hlevels. revert Hlevels. generalize (fst r). clear.
    induction limits as [|limit limits IH]; intros levels H; simpl in H.
    - inversion H. exists []. constructor.
    - inversion H as [|? level ? levels' (m & Hm & ->) Hrest]; subst.
      destruct (IH _ Hrest) as (matrices & HF).
      exists (m :: matrices). constructor; assumption. }
  destruct Hm as (matrices & HF).
  eexists. exists matrices, p, r. split; [exact Hg|]. split; [exact HF|].
  split; [exact Hp|]. split; [reflexivity|]. exact Hext.
Qed.

(** X11.  With limits, the grid has exactly one level per limit, in the
    order of the limits: each level is derived from the matrix found for
    the limit's id, and an extent is always passed. *)
Theorem parseTileMatrixSet_levels_with_limits sourceInfo tms template limits info :
  parseTileMatrixSet sourceInfo tms template (Some limits) = Normal info ->
  exists options matrices,
    newTileGrid options = Normal (grid info)
    /\ Forall2 (fun limit matrix =>
                  matrixLookupOf (tileMatrices tms) !! tileMatrix limit = Some matrix)
         limits matrices
    /\ origins options
       = map (orientedOrigin (isBackwards tms (resolvedProjection info))) matrices
    /\ resolutions options = map cellSize matrices
    /\ sizes options = map (fun m => (matrixWidth m, matrixHeight m)) matrices
    /\ tileSizes options = map (fun m => (tileWidth m, tileHeight m)) matrices
    /\ extent options <> None.
Proof.
  intros Hparse.
  destruct (parseTileMatrixSet_Normal _ _ _ _ _ Hparse) as (p & r & _ & Hd & Hg & Hp & _).
  destruct (deriveLevels_Normal_inv _ _ _ _ _ _ Hd) as [Hlevels _].
  assert (Hm : exists matrices,
    Forall2 (fun limit matrix =>
               matrixLookupOf (tileMatrices tms) !! tileMatrix limit = Some matrix)
      limits matrices
    /\ fst r = map (levelOf (isBackwards tms p)) matrices).
  { simpl in Hlevels. revert Hlevels. generalize (fst r). clear.
    induction limits as [|limit limits IH]; intros levels H; simpl in H.
    - inversion H. exists []. split; [constructor | reflexivity].
    - inversion H as [|? level ? levels' (m & Hm & ->) Hrest]; subst.
      destruct (IH _ Hrest) as (matrices & HF & ->).
      exists (m :: matrices). split; [constructor; assumption | reflexivity]. }
  destruct Hm as (matrices & HF & Hfst).
  eexists. exists matrices. split; [exact Hg|]. split; [exact HF|].
  simpl. rewrite Hfst, Hp, !map_map. repeat split; try reflexivity. discriminate.
Qed.

Lemma foldl_level_boxes b (ml : gmap string TileMatrix)
    (ll : gmap string TileMatrixSetLimit) limits matrices :
  Forall2 (fun limit matrix => ml !! tileMatrix limit = Some matrix) limits matrices ->
  (forall limit, In limit limits -> ll !! tileMatrix limit = Some limit) ->
  forall e,
  foldl (fun e k =>
           match ml !! k, ll !! k with
           | Some matrix, Some limit => intersectExtents e (levelBox b matrix limit)
           | _, _ => e
           end) e (map tileMatrix limits)
  = foldl (fun e lm => intersectExtents e (levelBox b (snd lm) (fst lm))) e
      (zip limits matrices).
Proof.
  induction 1 as [|limit matrix limits matrices Hm _ IH]; intros Hown e; [reflexivity|].
  simpl. rewrite Hm, (Hown limit (or_introl eq_refl)).
  apply IH. intros limit' Hin. apply Hown. right. exact Hin.
Qed.

(** X12.  With limits whose matrix ids are distinct, the extent handed to
    the grid is the whole plane intersected, limit after limit, with the
    map-unit box of each limit on its matrix. *)
Theorem parseTileMatrixSet_extent sourceInfo tms template limits info :
  NoDup (map tileMatrix limits) ->
  parseTileMatrixSet sourceInfo tms template (Some limits) = Normal info ->
  exists options matrices,
    newTileGrid options = Normal (grid info)
    /\ Forall2 (fun limit matrix =>
                  matrixLookupOf (tileMatrices tms) !! tileMatrix limit = Some matrix)
         limits matrices
    /\ extent options
       = Some (foldl (fun e lm =>
                        intersectExtents e
                          (levelBox (isBackwards tms (resolvedProjection info))
                             (snd lm) (fst lm)))
                 (negInfinity, negInfinity, posInfinity, posInfinity)
                 (zip limits matrices)).
Proof.
  intros Hnd Hparse.
  destruct (parseTileMatrixSet_levels_with_limits_aux sourceInfo tms template limits info Hparse)
    as (options & matrices & p & r & Hg & HF & Hp & Hext & Hsnd).
  exists options, matrices. split; [exact Hg|]. split; [exact HF|].
  rewrite Hext, Hsnd, Hp. f_equal. apply foldl_level_boxes; [exact HF|].
  intros limit Hin. apply list_elem_of_In, list_elem_of_lookup in Hin as [i Hi].
  apply (lookup_foldl_insert_NoDup tileMatrix limits i limit Hnd Hi).
Qed.

(** X13.  The URL function answers an undefined tile coordinate with
    undefined, and, when no matrix is called "undefined", throws
    [TypeError] for a level below zero or beyond the last level. *)
Theorem urlFunction_level_out_of_range sourceInfo tms template limits info :
  parseTileMatrixSet sourceInfo tms template limits = Normal info ->
  (forall pixelRatio proj, urlFunction info None pixelRatio proj = Normal None)
  /\ (Forall (fun matrix => id matrix <> "undefined") (tileMatrices tms) ->
      forall z col row pixelRatio proj,
      (z < 0 \/ Z.of_nat (length (matrixIdsOf tms limits)) <= z)%Z ->
      urlFunction info (Some (z, col, row)) pixelRatio proj = Throw TypeError).
Proof.
  intros Hparse.
  destruct (parseTileMatrixSet_Normal _ _ _ _ _ Hparse) as (p & r & _ & _ & _ & _ & _ & Hfn).
  rewrite Hfn. split; [reflexivity|].
  intros Hno z col row pixelRatio proj Hz. unfold tileUrlFunction.
  assert (Hidx : index (matrixIdsOf tms limits) z = None).
  { unfold index. destruct (Z.ltb_spec z 0); [reflexivity|].
    apply lookup_ge_None. lia. }
  rewrite Hidx. simpl toKey. unfold matrixLookupOf.
  rewrite (lookup_foldl_insert_None id (tileMatrices tms) "undefined"); [reflexivity|].
  intros matrix Hin. exact (proj1 (List.Forall_forall _ _) Hno matrix Hin).
Qed.

(** X14.  Without limits the URL function never answers undefined: at
    every level of the matrix list, every column and row, negative ones
    included, gets the URL built from the level's id, the column and the
    origin-relative row. *)
Theorem urlFunction_without_limits sourceInfo tms template info :
  parseTileMatrixSet sourceInfo tms template None = Normal info ->
  forall (i : nat) declared,
  tileMatrices tms !! i = Some declared ->
  exists matrix,
    matrixLookupOf (tileMatrices tms) !! id declared = Some matrix
    /\ forall col row pixelRatio proj,
       urlFunction info (Some (Z.of_nat i, col, row)) pixelRatio proj
       = Normal (Some (tileUrl (url sourceInfo) template (context sourceInfo)
                         (Some (id declared)) col
                         (if isBottomLeft (cornerOfOrigin matrix)
                          then (- row - 1)%Z else row))).
Proof.
  intros Hparse i declared Hi.
  destruct (parseTileMatrixSet_Normal _ _ _ _ _ Hparse) as (p & r & _ & _ & _ & _ & _ & Hfn).
  destruct (lookup_foldl_insert_is_Some id (tileMatrices tms) declared) as [matrix Hm].
  { apply list_elem_of_In. eapply list_elem_of_lookup_2. exact Hi. }
  exists matrix. split; [exact Hm|].
  intros col row pixelRatio proj. rewrite Hfn. unfold tileUrlFunction, index. simpl matrixIdsOf.
  replace (Z.of_nat i <? 0)%Z with false by (symmetry; apply Z.ltb_ge; lia).
  rewrite Nat2Z.id, list_lookup_fmap, Hi. simpl.
  change (matrixLookupOf (tileMatrices tms) !! id declared = Some matrix) in Hm.
  rewrite Hm. reflexivity.
Qed.

(** X15.  Two parses that share the matrices, the limits, the template,
    the base url and the context build URL functions that agree
    everywhere: the CRS, the axis order, the projection and the media
    types of the source do not reach the URLs. *)
Theorem urlFunction_depends_on sourceInfo1 sourceInfo2 tms1 tms2 template limits info1 info2 :
  parseTileMatrixSet sourceInfo1 tms1 template limits = Normal info1 ->
  parseTileMatrixSet sourceInfo2 tms2 template limits = Normal info2 ->
  tileMatrices tms1 = tileMatrices tms2 ->
  url sourceInfo1 = url sourceInfo2 ->
  context sourceInfo1 = context sourceInfo2 ->
  forall tileCoord pixelRatio1 pixelRatio2 proj1 proj2,
  urlFunction info1 tileCoord pixelRatio1 proj1
  = urlFunction info2 tileCoord pixelRatio2 proj2.
Proof.
  intros H1 H2 Hm Hu Hc tileCoord pixelRatio1 pixelRatio2 proj1 proj2.
  destruct (parseTileMatrixSet_Normal _ _ _ _ _ H1) as (? & ? & _ & _ & _ & _ & _ & ->).
  destruct (parseTileMatrixSet_Normal _ _ _ _ _ H2) as (? & ? & _ & _ & _ & _ & _ & ->).
  unfold matrixIdsOf. rewrite Hm, Hu, Hc. reflexivity.
Qed.

Lemma foldl_set_last (entries : list (string * string)) (acc : gmap string string)
    (k : string) :
  k <> "__proto__" ->
  foldl (fun o kv => set o (fst kv) (snd kv)) acc entries !! k
  = match lastBinding k entries with
    | Some v => Some v
    | None => acc !! k
    end.
Proof.
  intros Hk. revert acc. induction entries as [|[k0 v0] entries IH]; intros acc; [reflexivity|].
  simpl. rewrite IH. unfold lastBinding. simpl.
  destruct (String.eqb_spec k0 k) as [Heq | Hne].
  - rewrite last_cons. destruct (last (List.filter _ entries)); [reflexivity|].
    simpl. subst k0. unfold set. destruct (String.eqb_spec k "__proto__"); [contradiction|].
    apply lookup_insert_eq.
  - destruct (last (List.filter _ entries)); [reflexivity|].
    simpl. unfold set. destruct (k0 =? "__proto__"); [reflexivity|].
    apply lookup_insert_ne. exact Hne.
Qed.

(** X16.  A placeholder reads, in this order: the last value the
    caller's context gives its name (never for the name [__proto__]); else
    the computed entry; else, for a name the context and the computed
    entries do not have, the text of the [Object.prototype] member of that
    name, and "undefined" when there is none. *)
Theorem placeholderText_resolution (matrixId : option string) (col row : Z)
    (entries : list (string * string)) (k : string) :
  (k <> "__proto__" ->
   forall v, lastBinding k entries = Some v ->
   placeholderText (localContext matrixId col row (Some entries)) k = v)
  /\ (~ In k (map fst entries) -> ~ In k computedKeys ->
      placeholderText (localContext matrixId col row (Some entries)) k
      = if inherited k then protoText k else "undefined")
  /\ placeholderText (localContext matrixId col row (Some entries)) "__proto__"
     = protoText "__proto__"
  /\ (~ In k (map fst entries) ->
      (In k ["tileMatrix"; "z"] ->
       placeholderText (localContext matrixId col row (Some entries)) k = toKey matrixId)
      /\ (In k ["tileCol"; "x"] ->
          placeholderText (localContext matrixId col row (Some entries)) k
          = numberToString col)
      /\ (In k ["tileRow"; "y"] ->
          placeholderText (localContext matrixId col row (Some entries)) k
          = numberToString row)).
Proof.
  assert (Hentries := localContext_computed matrixId col row (Some entries) k).
  unfold placeholderText, get, localContext. simpl default. rewrite !foldl_app.
  split; [|split; [|split; [|exact Hentries]]].
  - intros Hk v Hv. rewrite (foldl_set_last entries _ k Hk), Hv. reflexivity.
  - intros Hctx Hcomputed. rewrite foldl_set_other by exact Hctx.
    rewrite foldl_set_other by exact Hcomputed. rewrite lookup_empty.
    destruct (inherited k); reflexivity.
  - assert (Hproto : forall (l : list (string * string)) acc,
              foldl (fun o kv => set o (fst kv) (snd kv)) acc l !! "__proto__"
              = acc !! "__proto__").
    { induction l as [|[k0 v0] l IH]; intros acc; [reflexivity|].
      simpl. rewrite IH. unfold set. destruct (String.eqb_spec k0 "__proto__"); [reflexivity|].
      apply lookup_insert_ne. assumption. }
    rewrite !Hproto. reflexivity.
Qed.

Lemma append_empty_r (s : string) : s +:+ "" = s.
Proof.
  induction s as [|c s IH]; [reflexivity|].
  change (String c (s +:+ "") = String c s). rewrite IH. reflexivity.
Qed.

Lemma append_assoc (s1 s2 s3 : string) : (s1 +:+ s2) +:+ s3 = s1 +:+ (s2 +:+ s3).
Proof.
  induction s1 as [|c s1 IH]; [reflexivity|].
  change (String c ((s1 +:+ s2) +:+ s3) = String c (s1 +:+ (s2 +:+ s3))).
  rewrite IH. reflexivity.
Qed.

Lemma append_non_empty (s : string) (c : ascii) (w : string) : s +:+ String c w <> "".
Proof. destruct s; discriminate. Qed.

Lemma replacePlaceholders_before f (a rest : string) :
  allChars (isNot "{") a = true ->
  replacePlaceholders f None (a +:+ rest) = a +:+ replacePlaceholders f None rest.
Proof.
  induction a as [|c a IH]; simpl; [reflexivity|].
  intros H. apply andb_prop in H as [Hc Ha]. unfold isNot in Hc.
  destruct (Ascii.eqb c "{"); [discriminate|]. rewrite (IH Ha). reflexivity.
Qed.

Lemma replacePlaceholders_open f (acc w rest : string) :
  allChars isWord w = true -> acc +:+ w <> "" ->
  replacePlaceholders f (Some acc) (w +:+ String "}" rest)
  = f (acc +:+ w) +:+ replacePlaceholders f None rest.
Proof.
  revert acc. induction w as [|c w IH]; intros acc Hw Hne.
  - rewrite append_empty_r in *. simpl.
    destruct (String.eqb_spec acc ""); [contradiction | reflexivity].
  - simpl in Hw. apply andb_prop in Hw as [Hc Hw]. simpl. rewrite Hc.
    rewrite (IH (acc +:+ String c "") Hw).
    + rewrite append_assoc. reflexivity.
    + rewrite append_assoc. apply append_non_empty.
Qed.

(** X17.  The URL of a tile is the base url resolved with the template in
    which the first placeholder, a non-empty run of word characters in
    braces, is replaced by what the context reads for it, and the rest is
    substituted the same way; a template without an opening brace is
    resolved as it is. *)
Theorem tileUrl_substitutes (base a w b : string) ctx (matrixId : option string)
    (col row : Z) :
  allChars (isNot "{") a = true ->
  (allChars isWord w = true -> w <> "" ->
   tileUrl base (a +:+ "{" +:+ w +:+ "}" +:+ b) ctx matrixId col row
   = resolveUrl base
       (a +:+ placeholderText (localContext matrixId col row ctx) w
        +:+ replacePlaceholders (placeholderText (localContext matrixId col row ctx)) None b))
  /\ tileUrl base a ctx matrixId col row = resolveUrl base a.
Proof.
  intros Ha. unfold tileUrl. split.
  - intros Hw Hne. rewrite (replacePlaceholders_before _ a _ Ha). f_equal. f_equal.
    change ("{" +:+ w +:+ "}" +:+ b) with (String "{" (w +:+ String "}" b)).
    cbn [replacePlaceholders]. change (Ascii.eqb "{" "{") with true. cbv iota.
    rewrite (replacePlaceholders_open _ "" w b Hw); [reflexivity|].
    destruct w; [contradiction | discriminate].
  - rewrite <- (append_empty_r a) at 1.
    rewrite (replacePlaceholders_before _ a "" Ha). simpl. rewrite append_empty_r. reflexivity.
Qed.

End MoreParsingFacts.

(** ** The tileset orchestration *)

Section OrchestrationFacts.

Context {urls : UrlHost} {types : HostTypes} {host : Host} {net : NetHost}.

(** X18.  A fetched tileset whose data type is neither "map" nor
    "vector" rejects with the "expected map or vector" error, whatever
    its links and its tile matrix set. *)
Theorem getTileSetInfo_unexpected_dataType sourceInfo tileSet :
  getTileSetJSON (url sourceInfo) = Normal tileSet ->
  dataType tileSet <> "map" -> dataType tileSet <> "vector" ->
  getTileSetInfo sourceInfo = silent (Throw unexpectedDataType).
Proof.
  intros Hfetch Hmap Hvector. unfold getTileSetInfo, parseTileSetMetadata, selectTemplate.
  rewrite Hfetch.
  destruct (String.eqb_spec (dataType tileSet) "map"); [contradiction|].
  destruct (String.eqb_spec (dataType tileSet) "vector"); [contradiction|].
  reflexivity.
Qed.

(** X19.  The tile URL template is selected before the tile matrix set is
    looked at: a "map" tileset without an "item" link rejects with the
    "no item link" error even when it has neither an inline tile matrix
    set nor a tiling-scheme link. *)
Theorem getTileSetInfo_selection_first sourceInfo tileSet :
  getTileSetJSON (url sourceInfo) = Normal tileSet ->
  dataType tileSet = "map" ->
  Forall (fun l => isItem l = false) (links tileSet) ->
  getTileSetInfo sourceInfo = silent (Throw noItemLink).
Proof.
  intros Hfetch Hmap Hno. unfold getTileSetInfo, parseTileSetMetadata, selectTemplate.
  rewrite Hfetch, Hmap. simpl. unfold getMapTileUrlTemplate.
  rewrite (scanMapLinks_noItem _ _ None Hno). reflexivity.
Qed.

(** X20.  With an inline tile matrix set no tile matrix set document is
    fetched: on any two networks that serve the same tileset the promise
    settles alike, as the parse of the inline set with the selected
    template and the limits of the tileset, after whatever the selection
    logged. *)
Theorem getTileSetInfo_inline (net1 net2 : NetHost) sourceInfo tileSet inline :
  @getTileSetJSON _ net1 (url sourceInfo) = Normal tileSet ->
  @getTileSetJSON _ net2 (url sourceInfo) = Normal tileSet ->
  tileMatrixSet tileSet = Some inline ->
  getTileSetInfo (net := net1) sourceInfo = getTileSetInfo (net := net2) sourceInfo
  /\ getTileSetInfo (net := net1) sourceInfo
     = {| logged := logged (selectTemplate sourceInfo tileSet);
          result :=
            bind (result (selectTemplate sourceInfo tileSet)) (fun tileUrlTemplate =>
            parseSelected sourceInfo inline tileUrlTemplate (tileMatrixSetLimits tileSet)) |}.
Proof.
  intros Hfetch1 Hfetch2 Hinline.
  assert (Hform : forall n : NetHost,
    @getTileSetJSON _ n (url sourceInfo) = Normal tileSet ->
    getTileSetInfo (net := n) sourceInfo
    = {| logged := logged (selectTemplate sourceInfo tileSet);
         result :=
           bind (result (selectTemplate sourceInfo tileSet)) (fun tileUrlTemplate =>
           parseSelected sourceInfo inline tileUrlTemplate (tileMatrixSetLimits tileSet)) |}).
  { intros n Hfetch. unfold getTileSetInfo, parseTileSetMetadata.
    rewrite Hfetch, Hinline. simpl. f_equal.
    destruct (result (selectTemplate sourceInfo tileSet)) as [v|e]; [|reflexivity].
    simpl. destruct (parseSelected sourceInfo inline v (tileMatrixSetLimits tileSet));
      reflexivity. }
  rewrite (Hform net1 Hfetch1), (Hform net2 Hfetch2). split; reflexivity.
Qed.

(** X21.  Without an inline tile matrix set, once a template is selected,
    the FIRST tiling-scheme link decides: its href is resolved against the
    url of the source, that document is fetched and parsed with the
    limits of the tileset, and a failed fetch rejects the promise; without
    such a link the promise rejects with the "expected tiling-scheme link
    or tileMatrixSet" error. *)
Theorem getTileSetInfo_linked sourceInfo tileSet tileUrlTemplate :
  getTileSetJSON (url sourceInfo) = Normal tileSet ->
  tileMatrixSet tileSet = None ->
  result (selectTemplate sourceInfo tileSet) = Normal tileUrlTemplate ->
  (forall pre l post,
     links tileSet = (pre ++ l :: post)%list ->
     Forall (fun l' => isTilingScheme l' = false) pre -> isTilingScheme l = true ->
     result (getTileSetInfo sourceInfo)
     = bind (getTileMatrixSetJSON (resolveUrl (url sourceInfo) (href l))) (fun fetched =>
       parseSelected sourceInfo fetched tileUrlTemplate (tileMatrixSetLimits tileSet)))
  /\ (Forall (fun l => isTilingScheme l = false) (links tileSet) ->
      result (getTileSetInfo sourceInfo) = Throw noTilingScheme).
Proof.
  intros Hfetch Hnone Hsel. unfold getTileSetInfo, parseTileSetMetadata.
  rewrite Hfetch, Hnone. simpl. rewrite Hsel. simpl. split.
  - intros pre l post -> Hpre Hl.
    assert (Hfind : List.find (fun l0 => rel l0 =? tilingSchemeRel) (pre ++ l :: post)
                    = Some l).
    { clear -Hpre Hl. induction Hpre as [|l0 pre Hl0 _ IH]; simpl.
      - unfold isTilingScheme in Hl. rewrite Hl. reflexivity.
      - unfold isTilingScheme in Hl0. rewrite Hl0. exact IH. }
    rewrite Hfind. reflexivity.
  - intros Hno.
    assert (Hfind : List.find (fun l0 => rel l0 =? tilingSchemeRel) (links tileSet) = None).
    { clear -Hno. induction Hno as [|l0 ls Hl0 _ IH]; simpl; [reflexivity|].
      unfold isTilingScheme in Hl0. rewrite Hl0. exact IH. }
    rewrite Hfind. reflexivity.
Qed.

(** X22.  A tileset with a selected template string and an inline tile
    matrix set whose limits name a matrix the set does not contain
    rejects: with the "Unsupported CRS" error when the projection cannot be
    resolved, else with [TypeError]. *)
Theorem getTileSetInfo_unknown_limit sourceInfo tileSet inline limits limit t :
  getTileSetJSON (url sourceInfo) = Normal tileSet ->
  tileMatrixSet tileSet = Some inline ->
  tileMatrixSetLimits tileSet = Some limits ->
  result (selectTemplate sourceInfo tileSet) = Normal (Str t) ->
  In limit limits ->
  (forall matrix, In matrix (tileMatrices inline) -> id matrix <> tileMatrix limit) ->
  result (getTileSetInfo sourceInfo)
  = match resolveProjection sourceInfo inline with
    | Normal _ => Throw TypeError
    | Throw e => Throw e
    end.
Proof.
  intros Hfetch Hinline Hlimits Hsel Hin Hmissing.
  unfold getTileSetInfo, parseTileSetMetadata.
  rewrite Hfetch, Hinline, Hlimits. simpl. rewrite Hsel. simpl.
  unfold parseTileMatrixSet.
  destruct (resolveProjection sourceInfo inline) as [p|e]; simpl; [|reflexivity].
  rewrite (deriveLevels_missing _ _ _ _ _ (tileMatrix limit)); [reflexivity | |].
  - apply in_map. exact Hin.
  - apply lookup_foldl_insert_None. exact Hmissing.
Qed.

End OrchestrationFacts.

(** ** The further statements at concrete inputs *)

Lemma appendCollectionsQueryParam_appends_witness :
  appendCollectionsQueryParam "tiles/{tileMatrix}/{tileRow}/{tileCol}" ["roads"; "land use"]
  = silent (Normal "tiles/{tileMatrix}/{tileRow}/{tileCol}?collections=roads,land%20use").
Proof.
  eapply (appendCollectionsQueryParam_appends
            "tiles/{tileMatrix}/{tileRow}/{tileCol}" ["roads"; "land use"]);
    [discriminate | vm_compute; reflexivity | vm_compute; reflexivity | reflexivity].
Defined.

Lemma encoded_collections_round_trip_witness :
  split "," (join "," (map encodeURIComponent ["a,b"; "c"])) = ["a%2Cb"; "c"]
  /\ Forall2 (fun part c => decodeURIComponent part = Normal c)
       (split "," (join "," (map encodeURIComponent ["a,b"; "c"]))) ["a,b"; "c"].
Proof.
  destruct (encoded_collections_round_trip ["a,b"; "c"] ltac:(discriminate)) as [Hsplit Hdecode].
  split; [exact Hsplit|]. apply Hdecode. repeat constructor.
Defined.

Lemma getMapTileUrlTemplate_exact_witness :
  getMapTileUrlTemplate pngThenJpeg (Some "image/jpeg") None = silent (Normal "B").
Proof.
  apply (getMapTileUrlTemplate_exact (Some "image/jpeg")
           [link "item" "image/png" "A"] (link "item" "image/jpeg" "B") [] None);
    [repeat constructor | reflexivity | discriminate].
Defined.

Lemma getMapTileUrlTemplate_selects_item_witness :
  "B" <> ""
  /\ exists l, In l pngThenJpeg /\ isItem l = true /\ href l = "B"
               /\ (exactItem (Some "image/webp") l || knownMapItem l || imageItem l) = true.
Proof.
  apply (getMapTileUrlTemplate_selects_item pngThenJpeg (Some "image/webp") "B").
  vm_compute. reflexivity.
Defined.

Lemma getMapTileUrlTemplate_no_item_witness :
  getMapTileUrlTemplate [link "alternate" "text/html" "B"] (Some "image/png") (Some ["roads"])
  = silent (Throw noItemLink).
Proof.
  apply getMapTileUrlTemplate_no_item. repeat constructor.
Defined.

Lemma getVectorTileUrlTemplate_selects_link_witness :
  "B" <> ""
  /\ exists l, In l geoJsonThenHtml /\ href l = "B"
               /\ (Some ["text/html"] = None -> isItem l = true).
Proof.
  apply (getVectorTileUrlTemplate_selects_link geoJsonThenHtml None (Some ["text/html"]) "B").
  vm_compute. reflexivity.
Defined.

Lemma getVectorTileUrlTemplate_last_of_type_witness :
  getVectorTileUrlTemplate geoJsonThenHtml None (Some ["text/html"; "application/geo+json"]) None
  = silent (Normal (Str "B")).
Proof.
  apply (getVectorTileUrlTemplate_last_of_type geoJsonThenHtml None "text/html"
           ["application/geo+json"] (link "alternate" "text/html" "B") None);
    [repeat constructor | discriminate | vm_compute; reflexivity | discriminate].
Defined.

Lemma getVectorTileUrlTemplate_inherited_witness :
  getVectorTileUrlTemplate geoJsonThenHtml None (Some ["constructor"]) None
  = silent (Normal (Inherited "constructor")).
Proof.
  apply (getVectorTileUrlTemplate_inherited geoJsonThenHtml None "constructor" []);
    [repeat constructor | reflexivity | repeat constructor; discriminate].
Defined.

Lemma parseTileMatrixSet_without_limits_failures_witness :
  parseTileMatrixSet sampleSourceInfo sampleWktTileMatrixSet sampleTemplate None
  = Throw (unsupportedCrs sampleWktTileMatrixSet)
  /\ (unsupportedCrs sampleWktTileMatrixSet = unsupportedCrs sampleWktTileMatrixSet
      \/ exists options, newTileGrid options = Throw (unsupportedCrs sampleWktTileMatrixSet)).
Proof.
  assert (H : parseTileMatrixSet sampleSourceInfo sampleWktTileMatrixSet sampleTemplate None
              = Throw (unsupportedCrs sampleWktTileMatrixSet)) by reflexivity.
  split; [exact H|].
  exact (parseTileMatrixSet_without_limits_failures _ _ _ _ H).
Defined.

Lemma parseTileMatrixSet_levels_without_limits_witness :
  NoDup (map id sampleMatrices)
  /\ exists info,
       parseTileMatrixSet sampleSourceInfo sampleTileMatrixSet sampleTemplate None = Normal info
       /\ gridResolutions (grid info) = [Finite 4; Finite 2; Finite 1]
       /\ gridExtent (grid info) = None.
Proof.
  assert (Hnd : NoDup (map id sampleMatrices)).
  { apply NoDup_ListNoDup. repeat constructor; simpl; intuition discriminate. }
  split; [exact Hnd|].
  destruct (parseTileMatrixSet sampleSourceInfo sampleTileMatrixSet sampleTemplate None)
    as [info|e] eqn:Hparse; [|vm_compute in Hparse; discriminate].
  exists info. split; [reflexivity|].
  destruct (parseTileMatrixSet_levels_without_limits sampleSourceInfo sampleTileMatrixSet
              sampleTemplate info Hnd Hparse)
    as (options & Hgrid & _ & Hres & _ & _ & Hext).
  injection Hgrid as Hgrid. rewrite <- Hgrid. simpl. rewrite Hres, Hext.
  split; reflexivity.
Defined.

Lemma parseTileMatrixSet_levels_with_limits_witness :
  exists info,
    parseTileMatrixSet sampleSourceInfo sampleTileMatrixSet sampleTemplate
      (Some [sampleLimit "2"; sampleLimit "0"]) = Normal info
    /\ gridResolutions (grid info) = [Finite 1; Finite 4].
Proof.
  destruct (parseTileMatrixSet sampleSourceInfo sampleTileMatrixSet sampleTemplate
              (Some [sampleLimit "2"; sampleLimit "0"]))
    as [info|e] eqn:Hparse; [|vm_compute in Hparse; discriminate].
  exists info. split; [reflexivity|].
  destruct (parseTileMatrixSet_levels_with_limits _ _ _ _ _ Hparse)
    as (options & matrices & Hgrid & Hfound & _ & Hres & _).
  injection Hgrid as Hgrid. rewrite <- Hgrid. simpl. rewrite Hres.
  apply mapM_Some in Hfound. vm_compute in Hfound. injection Hfound as <-. reflexivity.
Defined.

Lemma parseTileMatrixSet_extent_witness :
  NoDup (map tileMatrix [sampleLimit "2"])
  /\ exists info,
       parseTileMatrixSet sampleSourceInfo sampleTileMatrixSet sampleTemplate
         (Some [sampleLimit "2"]) = Normal info
       /\ gridExtent (grid info)
          = Some (Finite 76, Finite 90, Finite 844, Finite 858).
Proof.
  assert (Hnd : NoDup (map tileMatrix [sampleLimit "2"])).
  { apply NoDup_ListNoDup. repeat constructor. simpl. tauto. }
  split; [exact Hnd|].
  destruct (parseTileMatrixSet sampleSourceInfo sampleTileMatrixSet sampleTemplate
              (Some [sampleLimit "2"]))
    as [info|e] eqn:Hparse; [|vm_compute in Hparse; discriminate].
  exists info. split; [reflexivity|].
  destruct (parseTileMatrixSet_extent _ _ _ _ _ Hnd Hparse)
    as (options & matrices & Hgrid & Hfound & Hext).
  injection Hgrid as Hgrid. rewrite <- Hgrid. simpl. rewrite Hext.
  apply mapM_Some in Hfound. vm_compute in Hfound. injection Hfound as <-.
  pose proof (parseTileMatrixSet_Normal _ _ _ _ _ Hparse) as (p & r & Hp & _ & _ & Hres & _).
  vm_compute in Hp. injection Hp as <-. rewrite Hres. vm_compute. reflexivity.
Defined.

Lemma urlFunction_level_out_of_range_witness :
  exists info,
    parseTileMatrixSet sampleSourceInfo sampleTileMatrixSet sampleTemplate None = Normal info
    /\ urlFunction info (Some (3, 0, 0)%Z) (Finite 1) "EPSG:4326" = Throw TypeError
    /\ urlFunction info (Some (-1, 0, 0)%Z) (Finite 1) "EPSG:4326" = Throw TypeError.
Proof.
  destruct (parseTileMatrixSet sampleSourceInfo sampleTileMatrixSet sampleTemplate None)
    as [info|e] eqn:Hparse; [|vm_compute in Hparse; discriminate].
  exists info. split; [reflexivity|].
  destruct (urlFunction_level_out_of_range _ _ _ _ _ Hparse) as [_ Hout].
  assert (Hno : Forall (fun matrix => id matrix <> "undefined")
                  (tileMatrices sampleTileMatrixSet))
    by (repeat constructor; discriminate).
  split; apply (Hout Hno); simpl; lia.
Defined.

Lemma urlFunction_without_limits_witness :
  exists info,
    parseTileMatrixSet sampleSourceInfo sampleTileMatrixSet sampleTemplate None = Normal info
    /\ urlFunction info (Some (2, -7, 40)%Z) (Finite 1) "EPSG:4326"
       = Normal (Some "https://example.com/tiles/2/-41/-7.png").
Proof.
  destruct (parseTileMatrixSet sampleSourceInfo sampleTileMatrixSet sampleTemplate None)
    as [info|e] eqn:Hparse; [|vm_compute in Hparse; discriminate].
  exists info. split; [reflexivity|].
  destruct (urlFunction_without_limits _ _ _ _ Hparse 2%nat
              (sampleMatrix "2" 1 (Some bottomLeft)) eq_refl) as (matrix & Hm & Hurl).
  vm_compute in Hm. injection Hm as <-.
  pose proof (Hurl (-7) 40 (Finite 1) "EPSG:4326")%Z as H.
  change (Z.of_nat 2) with 2%Z in H. rewrite H. vm_compute. reflexivity.
Defined.

Lemma urlFunction_depends_on_witness :
  exists info1 info2,
    parseTileMatrixSet sampleSourceInfo sampleTileMatrixSet sampleTemplate None = Normal info1
    /\ parseTileMatrixSet sampleSourceInfo sampleMercatorTileMatrixSet sampleTemplate None
       = Normal info2
    /\ urlFunction info1 (Some (1, 2, 3)%Z) (Finite 1) "EPSG:4326"
       = urlFunction info2 (Some (1, 2, 3)%Z) (Finite 2) "EPSG:3857".
Proof.
  destruct (parseTileMatrixSet sampleSourceInfo sampleTileMatrixSet sampleTemplate None)
    as [info1|e] eqn:Hparse1; [|vm_compute in Hparse1; discriminate].
  destruct (parseTileMatrixSet sampleSourceInfo sampleMercatorTileMatrixSet sampleTemplate None)
    as [info2|e] eqn:Hparse2; [|vm_compute in Hparse2; discriminate].
  exists info1, info2. split; [reflexivity|]. split; [reflexivity|].
  apply (urlFunction_depends_on _ _ _ _ _ _ _ _ Hparse1 Hparse2); reflexivity.
Defined.

Lemma placeholderText_resolution_witness :
  placeholderText (localContext (Some "2") 1 0 (Some [("z", "9"); ("style", "dark")])) "z" = "9"
  /\ placeholderText (localContext (Some "2") 1 0 (Some [("z", "9"); ("style", "dark")]))
       "time" = "undefined".
Proof.
  destruct (placeholderText_resolution (Some "2") 1 0 [("z", "9"); ("style", "dark")] "z")
    as (Hcaller & _ & _).
  destruct (placeholderText_resolution (Some "2") 1 0 [("z", "9"); ("style", "dark")] "time")
    as (_ & Hmissing & _).
  split.
  - apply Hcaller; [discriminate | reflexivity].
  - rewrite Hmissing; [reflexivity | |]; simpl; intuition discriminate.
Defined.

Lemma tileUrl_substitutes_witness :
  tileUrl "https://example.com/tiles/" "{z}/static.png" None (Some "2") 1 0
  = "https://example.com/tiles/2/static.png"
  /\ tileUrl "https://example.com/tiles/" "static.png" None (Some "2") 1 0
     = "https://example.com/tiles/static.png".
Proof.
  split.
  - pose proof (proj1 (tileUrl_substitutes "https://example.com/tiles/" "" "z" "/static.png"
                         None (Some "2") 1 0 eq_refl) eq_refl ltac:(discriminate)) as H.
    change ("" +:+ "{" +:+ "z" +:+ "}" +:+ "/static.png") with "{z}/static.png" in H.
    rewrite H. vm_compute. reflexivity.
  - rewrite (proj2 (tileUrl_substitutes "https://example.com/tiles/" "static.png" "" ""
                      None (Some "2") 1 0 eq_refl)).
    reflexivity.
Defined.

Lemma getTileSetInfo_unexpected_dataType_witness :
  getTileSetInfo (net := netServing (sampleInlineTileSet "coverage" pngThenJpeg None))
    sampleSourceInfo
  = silent (Throw unexpectedDataType).
Proof.
  apply (getTileSetInfo_unexpected_dataType
           (net := netServing (sampleInlineTileSet "coverage" pngThenJpeg None))
           sampleSourceInfo (sampleInlineTileSet "coverage" pngThenJpeg None));
    [reflexivity | discriminate | discriminate].
Defined.

Lemma getTileSetInfo_selection_first_witness :
  getTileSetInfo
    (net := netServing (sampleBareTileSet [link "alternate" "text/html" "B"]))
    sampleSourceInfo
  = silent (Throw noItemLink).
Proof.
  apply (getTileSetInfo_selection_first
           (net := netServing (sampleBareTileSet [link "alternate" "text/html" "B"]))
           sampleSourceInfo (sampleBareTileSet [link "alternate" "text/html" "B"]));
    [reflexivity | reflexivity | repeat constructor].
Defined.

Lemma getTileSetInfo_inline_witness :
  getTileSetInfo (net := netServing (sampleInlineTileSet "map" pngThenJpeg None))
    sampleSourceInfo
  = getTileSetInfo (net := netAnswering (sampleInlineTileSet "map" pngThenJpeg None))
      sampleSourceInfo.
Proof.
  apply (getTileSetInfo_inline (netServing (sampleInlineTileSet "map" pngThenJpeg None))
           (netAnswering (sampleInlineTileSet "map" pngThenJpeg None))
           sampleSourceInfo (sampleInlineTileSet "map" pngThenJpeg None) sampleTileMatrixSet
           eq_refl eq_refl eq_refl).
Defined.

Lemma getTileSetInfo_linked_witness :
  result (getTileSetInfo sampleSourceInfo)
  = parseSelected sampleSourceInfo sampleTileMatrixSet (Str sampleTemplate)
      (Some [sampleLimit "2"])
  /\ result (getTileSetInfo (net := netServing (sampleBareTileSet pngThenJpeg))
               sampleSourceInfo)
     = Throw noTilingScheme.
Proof.
  split.
  - destruct (getTileSetInfo_linked (net := sampleNet) sampleSourceInfo sampleTileSet
                (Str sampleTemplate) eq_refl eq_refl eq_refl) as [Hlink _].
    rewrite (Hlink [link "item" "image/png" sampleTemplate]
               (link tilingSchemeRel "application/json" "../tms/WorldCRS84Quad") []
               eq_refl ltac:(repeat constructor) eq_refl).
    reflexivity.
  - apply (getTileSetInfo_linked (net := netServing (sampleBareTileSet pngThenJpeg))
             sampleSourceInfo (sampleBareTileSet pngThenJpeg) (Str "B")
             eq_refl eq_refl eq_refl).
    repeat constructor.
Defined.

Lemma getTileSetInfo_unknown_limit_witness :
  result (getTileSetInfo
            (net := netServing (sampleInlineTileSet "map" pngThenJpeg (Some [sampleLimit "7"])))
            sampleSourceInfo)
  = Throw TypeError.
Proof.
  rewrite (getTileSetInfo_unknown_limit
             (net := netServing (sampleInlineTileSet "map" pngThenJpeg (Some [sampleLimit "7"])))
             sampleSourceInfo (sampleInlineTileSet "map" pngThenJpeg (Some [sampleLimit "7"]))
             sampleTileMatrixSet [sampleLimit "7"] (sampleLimit "7") "B"
             eq_refl eq_refl eq_refl eq_refl (or_introl eq_refl)).
  - reflexivity.
  - intros matrix [<- | [<- | [<- | []]]]; discriminate.
Defined.

